(** * Decoding and pagination layer of gophercloud (images v2, volumes v2)

    A shallow embedding of
    [openstack/imageservice/v2/images/results.go] and
    [openstack/blockstorage/v2/volumes/results.go], and the properties of
    them that the specification states.

    The Go functions are transformers of an already parsed JSON document, so
    they are embedded as Rocq functions.  Three things of the Go runtime are
    made explicit because the code relies on them:

    - a call may return normally or panic ([go_result]);
    - [json.Unmarshal] writes into its target in place, so a failed decode
      still leaves the part decoded so far in the target ([dres]);
    - the few choices Go leaves to the platform are the fields of the class
      [Platform].

    The standard packages [encoding/json], [strconv] and [time] are modelled
    as far as the two files use them: decoding into the Go types of the
    structs, the rounding of a literal to a float64, the parsing of an
    RFC 3339 time.  What the two files take from the rest of the repository
    is modelled from the specification, and marked so.

    The file has the definitions first: JSON and the decoder, package
    images, results and pages, package volumes, then the notions the
    statements use and the payloads they are evaluated on.  The properties
    follow, the numbered ones under the number the specification's claims
    carry. *)

From Stdlib Require Import ZArith QArith Qround Qpower Lia List String Ascii Bool.
From stdpp Require Import base option list strings gmap.

Local Open Scope string_scope.
Local Open Scope Z_scope.

(** ** JSON documents

    A number keeps the shape of its literal: Go decodes an integer literal
    into an [int] field but rejects a literal with a fraction or an exponent
    there.  [NDec m e] is a literal with a fraction or an exponent, of value
    [m * 10^e].  The members of an object are kept in document order, with
    their duplicates. *)

Inductive jnumber : Type :=
| NInt (z : Z)
| NDec (m : Z) (e : Z).

#[local] Unset Elimination Schemes.
Inductive json : Type :=
| JNull
| JBool (b : bool)
| JNum (n : jnumber)
| JStr (s : string)
| JArr (l : list json)
| JObj (o : list (string * json)).
#[local] Set Elimination Schemes.

Definition number_value (n : jnumber) : Q :=
  match n with
  | NInt z => inject_Z z
  | NDec m e => (inject_Z m * Qpower (10 # 1) e)%Q
  end.

(** The word [encoding/json] uses for a JSON value in its type errors. *)
Definition json_kind (j : json) : string :=
  match j with
  | JNull => "null"
  | JBool _ => "bool"
  | JNum _ => "number"
  | JStr _ => "string"
  | JArr _ => "array"
  | JObj _ => "object"
  end.

(** The member of an object that a Go [map] keeps for a key: the last one. *)
Fixpoint obj_get (k : string) (o : list (string * json)) : option json :=
  match o with
  | [] => None
  | (k', v) :: rest =>
      match obj_get k rest with
      | Some w => Some w
      | None => if String.eqb k' k then Some v else None
      end
  end.

(** ** float64

    A finite binary64 number is [mant * 2^expo] with [|mant| <= 2^53] and
    [-1074 <= expo <= 971].  The sign of zero is not kept: nothing in the
    modelled code can observe it. *)

Record float64 : Type := F64 { mant : Z; expo : Z }.


(** [a / (d * 2^e)] as a fraction of integers. *)
Definition scaled (a d e : Z) : Z * Z :=
  if 0 <=? e then (a, d * 2 ^ e) else (a * 2 ^ (- e), d).

Definition round_half_even (N D : Z) : Z :=
  let q := N / D in
  let r := N mod D in
  if (D <? 2 * r) || ((D =? 2 * r) && Z.odd q) then q + 1 else q.

(** The exponent [e] for which [2^52 <= a / (d * 2^e) < 2^53]. *)
Definition binade (a d : Z) : Z :=
  let e0 := Z.log2 a - Z.log2 d - 52 in
  let '(N, D) := scaled a d e0 in
  if N / D <? 2 ^ 52 then e0 - 1 else e0.

(** Round to nearest, ties to even; [None] when the result is out of the
    range of binary64. *)
Definition round_float64 (q : Q) : option float64 :=
  let q := Qred q in
  let n := Qnum q in
  let d := Zpos (Qden q) in
  if n =? 0 then Some (F64 0 0)
  else
    let a := Z.abs n in
    let e := Z.max (binade a d) (-1074) in
    let '(N, D) := scaled a d e in
    let m := round_half_even N D in
    if (971 <? e) || ((e =? 971) && (m =? 2 ^ 53)) then None
    else Some (F64 (Z.sgn n * m) e).

(** [strconv.ParseFloat(s, 64)] on a JSON number literal: correctly rounded,
    with a range error when the literal is too large. *)
Definition strconv_ParseFloat (n : jnumber) : option float64 :=
  round_float64 (number_value n).


(** A float64 rounded toward zero, on its mantissa and exponent. *)
Definition float64_trunc (f : float64) : Z :=
  if 0 <=? expo f then mant f * 2 ^ expo f
  else Z.quot (mant f) (2 ^ (- expo f)).

Definition int64_min : Z := - 2 ^ 63.
Definition int64_max : Z := 2 ^ 63 - 1.

Definition in_int64 (z : Z) : bool := (int64_min <=? z) && (z <=? int64_max).

(** ** What Go leaves to the platform

    [foldName] is the case folding under which [encoding/json] matches an
    object key with a field name when no field has exactly that name.
    [int64_out_of_range] is the result of the conversion [int64(f)] when [f]
    does not fit: the language leaves it to the implementation.
    [method_error_stops] tells what [encoding/json] does with the error that
    an [UnmarshalJSON] method returns for an element of an array or a field
    of a struct: the decoder of the package itself gives up at once and
    leaves the following elements undecoded ([true]); the package built on
    [encoding/json/v2] keeps the error, decodes the following elements and
    returns the error at the end ([false]).  The documentation of
    [json.Unmarshal] promises nothing on the content of the target after an
    error. *)

Class Platform : Type := {
  foldName : string -> string;
  int64_out_of_range : float64 -> Z;
  method_error_stops : bool
}.

(** The conversion [int64(f)]. *)
Definition int64_of_float64 `{Platform} (f : float64) : Z :=
  let t := float64_trunc f in
  if in_int64 t then t else int64_out_of_range f.

(** ** Go values and errors *)

(** A value of type [interface{}] as [encoding/json] produces it. *)
#[local] Unset Elimination Schemes.
Inductive iface : Type :=
| INil
| IBool (b : bool)
| IFloat64 (f : float64)
| IString (s : string)
| ISlice (l : list iface)
| IMap (m : gmap string iface).
#[local] Set Elimination Schemes.

(** [reflect.TypeOf(t)] printed with [%v]. *)
Definition reflect_TypeOf (t : iface) : string :=
  match t with
  | INil => "<nil>"
  | IBool _ => "bool"
  | IFloat64 _ => "float64"
  | IString _ => "string"
  | ISlice _ => "[]interface {}"
  | IMap _ => "map[string]interface {}"
  end.

(** The error values the modelled code can return.  [UnmarshalTypeError]
    is [*json.UnmarshalTypeError] with the kind of JSON value it met and the
    Go type it was decoding into.  [Kind] is the first word of its field
    [Value]: for a number that does not fit the Go type, Go writes the
    literal after it, which is not kept here, a JSON number being modelled
    by its value and not by its text.  [ParseError] is [*time.ParseError];
    [UnknownSizeBytes] is the error built by [fmt.Errorf] in
    [Image.UnmarshalJSON], with the type and the value it prints;
    [OtherError] is any other error, such as the one a failed request leaves
    in [Result.Err]. *)
Inductive error : Type :=
| UnmarshalTypeError (Kind : string) (GoType : string)
| ParseError (Layout : string) (Value : string)
| UnknownSizeBytes (ty : string) (t : iface)
| OtherError (msg : string).

(** A call returns or panics. *)
Inductive go_result (A : Type) : Type :=
| Returns (a : A)
| Panics.
Arguments Returns {A} a.
Arguments Panics {A}.

(** The outcome of decoding one JSON value into a target of type [T].
    [Cont v saved]: the decoder went through the whole value; the target now
    holds [v]; [saved] is the first type error it met and stepped over
    ([decodeState.saveError]), or the first error of an [UnmarshalJSON]
    method on a platform where such an error does not stop the decoder.
    [Stop v e]: an [UnmarshalJSON] method returned [e] and the decoder gave
    up at once, leaving [v] in the target.  [Crash]: an [UnmarshalJSON]
    method panicked. *)
Inductive dres (T : Type) : Type :=
| Cont (v : T) (saved : option error)
| Stop (v : T) (e : error)
| Crash.
Arguments Cont {T} v saved.
Arguments Stop {T} v e.
Arguments Crash {T}.

Definition decoder (T : Type) : Type := json -> T -> dres T.

(** [saveError] keeps the earliest error. *)
Definition first_error (e1 e2 : option error) : option error :=
  match e1 with
  | Some e => Some e
  | None => e2
  end.

(** [json.Unmarshal(b, &target)]: the error returned is the one that
    stopped the decoder, or else the saved one. *)
Definition json_Unmarshal {T : Type} (dec : decoder T) (b : json) (target : T)
  : go_result (T * option error) :=
  match dec b target with
  | Cont v saved => Returns (v, saved)
  | Stop v e => Returns (v, Some e)
  | Crash => Panics
  end.

(** *** Decoding into [interface{}] *)

(** The error for a number that [strconv] cannot read into the Go type,
    without the literal that Go writes after the kind. *)
Definition number_error (goType : string) : error :=
  UnmarshalTypeError "number" goType.

Fixpoint valueInterface (j : json) : iface * option error :=
  match j with
  | JNull => (INil, None)
  | JBool b => (IBool b, None)
  | JNum n =>
      match strconv_ParseFloat n with
      | Some f => (IFloat64 f, None)
      | None => (INil, Some (number_error "float64"))
      end
  | JStr s => (IString s, None)
  | JArr l =>
      let r :=
        (fix arrayInterface (l : list json) : list iface * option error :=
           match l with
           | [] => ([], None)
           | x :: rest =>
               let '(v, e1) := valueInterface x in
               let '(vs, e2) := arrayInterface rest in
               (v :: vs, first_error e1 e2)
           end) l in
      (ISlice (fst r), snd r)
  | JObj o =>
      let r :=
        (fix objectInterface (o : list (string * json)) (m : gmap string iface)
           : gmap string iface * option error :=
           match o with
           | [] => (m, None)
           | (k, x) :: rest =>
               let '(v, e1) := valueInterface x in
               let '(m', e2) := objectInterface rest (<[k := v]> m) in
               (m', first_error e1 e2)
           end) o ∅ in
      (IMap (fst r), snd r)
  end.

(** A field or map element of type [interface{}].  A number that does not
    fit a float64 is reported and the target keeps what it held. *)
Definition decode_interface : decoder iface :=
  fun j cur =>
    match j with
    | JNum n =>
        match strconv_ParseFloat n with
        | Some f => Cont (IFloat64 f) None
        | None => Cont cur (Some (number_error "float64"))
        end
    | _ => let '(v, e) := valueInterface j in Cont v e
    end.

(** *** Decoding into the basic types

    [null] leaves a string, a number or a bool as it is; a value of the wrong
    kind is reported and stepped over. *)

Definition type_error (j : json) (goType : string) : error :=
  UnmarshalTypeError (json_kind j) goType.

Definition decode_string : decoder string :=
  fun j cur =>
    match j with
    | JStr s => Cont s None
    | JNull => Cont cur None
    | _ => Cont cur (Some (type_error j "string"))
    end.

Definition decode_bool : decoder bool :=
  fun j cur =>
    match j with
    | JBool b => Cont b None
    | JNull => Cont cur None
    | _ => Cont cur (Some (type_error j "bool"))
    end.

(** [int64], and [int] on the 64-bit platforms: only an integer literal in
    range is accepted. *)
Definition decode_int (goType : string) : decoder Z :=
  fun j cur =>
    match j with
    | JNum (NInt z) =>
        if in_int64 z then Cont z None
        else Cont cur (Some (number_error goType))
    | JNum (NDec _ _) => Cont cur (Some (number_error goType))
    | JNull => Cont cur None
    | _ => Cont cur (Some (type_error j goType))
    end.

(** *** Slices

    A slice is [None] when nil.  Element [i] is decoded into the element the
    slice already has at [i], or into a fresh zero element once the slice
    has grown.  When the decoder stops in element [i] (the error of an
    [UnmarshalJSON] method, on a platform where it stops the decoder) the
    slice keeps the elements decoded so far, the element it stopped in, and
    what it held after it; on the other platforms that error is carried
    along as a saved one and every element is decoded. *)

Section Slice.
Context {T : Type} (elem : decoder T) (zero : T).

Fixpoint decode_elems (l : list json) (cur : list T) : dres (list T) :=
  match l with
  | [] => Cont [] None
  | x :: rest =>
      let c := hd zero cur in
      match elem x c with
      | Cont v e1 =>
          match decode_elems rest (tl cur) with
          | Cont vs e2 => Cont (v :: vs) (first_error e1 e2)
          | Stop vs e => Stop (v :: vs) e
          | Crash => Crash
          end
      | Stop v e => Stop (v :: tl cur) e
      | Crash => Crash
      end
  end.

Definition slice_elems (s : option (list T)) : list T :=
  match s with
  | Some l => l
  | None => []
  end.

Definition decode_slice (goType : string) : decoder (option (list T)) :=
  fun j cur =>
    match j with
    | JNull => Cont None None
    | JArr l =>
        match decode_elems l (slice_elems cur) with
        | Cont vs e => Cont (Some vs) e
        | Stop vs e => Stop (Some vs) e
        | Crash => Crash
        end
    | _ => Cont cur (Some (type_error j goType))
    end.
End Slice.

(** *** Maps with string keys

  A map is [None] when nil.  Every member is decoded into a fresh zero
  element and stored under its key, the existing entries staying. *)

Section Map.
Context {T : Type} (elem : decoder T) (zero : T).

Fixpoint decode_entries (o : list (string * json)) (m : gmap string T)
  : dres (gmap string T) :=
  match o with
  | [] => Cont m None
  | (k, x) :: rest =>
      match elem x zero with
      | Cont v e1 =>
          match decode_entries rest (<[k := v]> m) with
          | Cont m' e2 => Cont m' (first_error e1 e2)
          | r => r
          end
      | Stop v e => Stop m e
      | Crash => Crash
      end
  end.

Definition map_entries (m : option (gmap string T)) : gmap string T :=
  match m with
  | Some m => m
  | None => ∅
  end.

Definition decode_map (goType : string) : decoder (option (gmap string T)) :=
  fun j cur =>
    match j with
    | JNull => Cont None None
    | JObj o =>
        match decode_entries o (map_entries cur) with
        | Cont m e => Cont (Some m) e
        | Stop m e => Stop (Some m) e
        | Crash => Crash
        end
    | _ => Cont cur (Some (type_error j goType))
    end.
End Map.

(** *** Structs

    A struct type is given to the decoder as the table of its fields that
    JSON can see: the wire name of each and how a value is stored in it.
    For every member of the object, in document order, the decoder takes the
    field of exactly that name or else the first one whose name folds to the
    same string; a member that has no field is skipped. *)

Section Struct.
Context `{Platform} {S : Type}.

Record field : Type := Field { wire : string; store : decoder S }.

Definition find_field (fs : list field) (key : string) : option field :=
  match find (fun f => String.eqb (wire f) key) fs with
  | Some f => Some f
  | None => find (fun f => String.eqb (foldName (wire f)) (foldName key)) fs
  end.

Fixpoint decode_members (fs : list field) (o : list (string * json)) (s : S)
  : dres S :=
  match o with
  | [] => Cont s None
  | (k, v) :: rest =>
      match find_field fs k with
      | None => decode_members fs rest s
      | Some f =>
          match store f v s with
          | Cont s' e1 =>
              match decode_members fs rest s' with
              | Cont s'' e2 => Cont s'' (first_error e1 e2)
              | r => r
              end
          | r => r
          end
      end
  end.

Definition decode_struct (fs : list field) (goType : string) : decoder S :=
  fun j s =>
    match j with
    | JObj o => decode_members fs o s
    | JNull => Cont s None
    | _ => Cont s (Some (type_error j goType))
    end.
End Struct.
Arguments field : clear implicits.

(** A decoder for one component of a struct. *)
Definition at_field {S A : Type} (get : S -> A) (set : A -> S -> S)
  (dec : decoder A) : decoder S :=
  fun j s =>
    match dec j (get s) with
    | Cont a e => Cont (set a s) e
    | Stop a e => Stop (set a s) e
    | Crash => Crash
    end.

(** A pointer to a struct, [None] when nil: [null] sets it to nil, any
    other value is decoded into the struct it points to, allocated first
    when the pointer is nil. *)
Definition decode_pointer {S : Type} (dec : decoder S) (zero : S)
  : decoder (option S) :=
  fun j cur =>
    match j with
    | JNull => Cont None None
    | _ =>
        match dec j (default zero cur) with
        | Cont s e => Cont (Some s) e
        | Stop s e => Stop (Some s) e
        | Crash => Crash
        end
    end.

(** ** Strings *)

Definition is_upper (c : ascii) : bool :=
  let n := nat_of_ascii c in (Nat.leb 65 n) && (Nat.leb n 90).

Definition lower_ascii (c : ascii) : ascii :=
  if is_upper c then ascii_of_nat (nat_of_ascii c + 32) else c.

(** [strings.ToLower], on the ASCII names that Go identifiers of this
    package are. *)
Fixpoint strings_ToLower (s : string) : string :=
  match s with
  | EmptyString => EmptyString
  | String c rest => String (lower_ascii c) (strings_ToLower rest)
  end.

(** The tag [json:"key"] of a struct field as [reflect] prints it in the
    name of the struct type: quoted, the quotes inside escaped. *)
Definition double_quote : string := String (ascii_of_nat 34) EmptyString.
Definition backslash : string := String (ascii_of_nat 92) EmptyString.

Definition json_tag (key : string) : string :=
  double_quote ++ "json:" ++ backslash ++ double_quote ++ key ++
  backslash ++ double_quote ++ double_quote.

(** [strings.Split(s, ",")[0]]: what comes before the first comma. *)
Fixpoint before_comma (s : string) : string :=
  match s with
  | EmptyString => EmptyString
  | String c rest =>
      if Ascii.eqb c "," then EmptyString else String c (before_comma rest)
  end.

(** ** time.Parse(time.RFC3339, s)

    A time is kept as the fields of the text it was read from; the zero
    time is January 1 of year 1, 00:00:00 UTC.

    [time.Parse] reads a text chunk by chunk along the layout
    ["2006-01-02T15:04:05Z07:00"], and accepts more than RFC 3339 allows:
    the hour [15] is read by [getnum(value, false)], one digit or two; a
    fraction of a second may follow the seconds after a period or a comma;
    the hours and minutes of an offset may be as large as 24 and 60.  The
    year has four digits; month, day, minute and second have two; the
    separators are matched exactly; nothing may follow the zone. *)

Record Time : Type := mkTime {
  year : Z; month : Z; day : Z;
  hour : Z; minute : Z; second : Z;
  nanosecond : Z;
  zone_offset : Z
}.

Definition zero_Time : Time := mkTime 1 1 1 0 0 0 0 0.

Definition RFC3339 : string := "2006-01-02T15:04:05Z07:00".

Definition digit_of (c : ascii) : option Z :=
  let n := Z.of_nat (nat_of_ascii c) in
  if (48 <=? n) && (n <=? 57) then Some (n - 48) else None.

(** Exactly [k] decimal digits: [getnum(value, true)] for two, and the four
    of the year. *)
Fixpoint read_digits (k : nat) (acc : Z) (s : string) : option (Z * string) :=
  match k with
  | O => Some (acc, s)
  | Datatypes.S k' =>
      match s with
      | String c rest =>
          match digit_of c with
          | Some d => read_digits k' (10 * acc + d) rest
          | None => None
          end
      | EmptyString => None
      end
  end.

(** [getnum(value, false)]: two digits when the second character is one,
    else one digit. *)
Definition getnum_free (s : string) : option (Z * string) :=
  match s with
  | String c rest =>
      match digit_of c with
      | Some d =>
          match rest with
          | String c' rest' =>
              match digit_of c' with
              | Some d' => Some (10 * d + d', rest')
              | None => Some (d, rest)
              end
          | EmptyString => Some (d, rest)
          end
      | None => None
      end
  | EmptyString => None
  end.

Definition read_char (c : ascii) (s : string) : option string :=
  match s with
  | String c' rest => if Ascii.eqb c c' then Some rest else None
  | EmptyString => None
  end.

Definition in_range (lo hi x : Z) : option Z :=
  if (lo <=? x) && (x <=? hi) then Some x else None.

Definition is_leap (y : Z) : bool :=
  (y mod 4 =? 0) && (negb (y mod 100 =? 0) || (y mod 400 =? 0)).

Definition daysIn (m y : Z) : Z :=
  if m =? 2 then (if is_leap y then 29 else 28)
  else if (m =? 4) || (m =? 6) || (m =? 9) || (m =? 11) then 30
  else 31.

(** The digits of a fraction of a second, as nanoseconds: the first nine
    count, the others are dropped. *)
Fixpoint read_fraction (scale : Z) (acc : Z) (s : string) : Z * string :=
  match s with
  | String c rest =>
      match digit_of c with
      | Some d => read_fraction (scale / 10) (acc + d * scale) rest
      | None => (acc, s)
      end
  | EmptyString => (acc, s)
  end.

Definition starts_with_digit (s : string) : bool :=
  match s with
  | String c _ => match digit_of c with Some _ => true | None => false end
  | EmptyString => false
  end.

(** [commaOrPeriod]. *)
Definition commaOrPeriod (c : ascii) : bool :=
  Ascii.eqb c "." || Ascii.eqb c ",".

(** The layout has no fraction of a second: one is read when the seconds
    are followed by a period or a comma and a digit. *)
Definition read_nanoseconds (s : string) : Z * string :=
  match s with
  | String c rest =>
      if commaOrPeriod c && starts_with_digit rest
      then read_fraction 100000000 0 rest
      else (0, s)
  | _ => (0, s)
  end.

(** ["Z"], or a sign, two digits of hours, a colon and two digits of
    minutes, and nothing after it.  The range test of the offset lets 24
    hours and 60 minutes through. *)
Definition read_zone (s : string) : option Z :=
  match s with
  | String "Z" EmptyString => Some 0
  | String sign rest =>
      '(hh, rest) ← read_digits 2 0 rest;
      rest ← read_char ":" rest;
      '(mm, rest) ← read_digits 2 0 rest;
      hh ← in_range 0 24 hh;
      mm ← in_range 0 60 mm;
      match rest with
      | EmptyString =>
          if Ascii.eqb sign "+" then Some ((hh * 60 + mm) * 60)
          else if Ascii.eqb sign "-" then Some (- ((hh * 60 + mm) * 60))
          else None
      | _ => None
      end
  | EmptyString => None
  end.

Definition parse_RFC3339 (s : string) : option Time :=
  '(y, s) ← read_digits 4 0 s;
  s ← read_char "-" s;
  '(mo, s) ← read_digits 2 0 s;
  s ← read_char "-" s;
  '(d, s) ← read_digits 2 0 s;
  s ← read_char "T" s;
  '(h, s) ← getnum_free s;
  s ← read_char ":" s;
  '(mi, s) ← read_digits 2 0 s;
  s ← read_char ":" s;
  '(sec, s) ← read_digits 2 0 s;
  mo ← in_range 1 12 mo;
  d ← in_range 1 (daysIn mo y) d;
  h ← in_range 0 23 h;
  mi ← in_range 0 59 mi;
  sec ← in_range 0 59 sec;
  let '(ns, s) := read_nanoseconds s in
  off ← read_zone s;
  Some (mkTime y mo d h mi sec ns off).

(** [time.Parse] returns the zero time together with its error. *)
Definition time_Parse_RFC3339 (value : string) : Time * option error :=
  match parse_RFC3339 value with
  | Some t => (t, None)
  | None => (zero_Time, Some (ParseError RFC3339 value))
  end.

(** ** Package images *)

(** Modelled from the spec: [ImageStatus] and [ImageVisibility] are declared
    in another file of the package, not under src/.  The spec counts the
    status among the attributes of the fixed schema of an entity; both are
    carried as JSON strings. *)
Definition ImageStatus : Type := string.
Definition ImageVisibility : Type := string.

(** The Image model. *)
Record Image : Type := mkImage {
  ID : string;
  Name : string;
  Status : ImageStatus;
  Tags : option (list string);
  ContainerFormat : string;
  DiskFormat : string;
  MinDiskGigabytes : Z;
  MinRAMMegabytes : Z;
  Owner : string;
  Protected : bool;
  Visibility : ImageVisibility;
  Checksum : string;
  SizeBytes : Z;
  Metadata : option (gmap string string);
  Properties : option (gmap string string);
  CreatedAt : Time;
  UpdatedAt : Time;
  File : string;
  Schema : string;
  VirtualSize : Z;
  Self : string;
  DirectURL : string;
  Locations : option (list string)
}.

(** The zero value of [Image]. *)
Definition zero_Image : Image :=
  mkImage "" "" "" None "" "" 0 0 "" false "" ""
    0 None None zero_Time zero_Time "" "" 0 "" "" None.

(** Assignment to one field of an [Image]. *)
Definition set_ID (a : string) (s : Image) : Image :=
  let 'mkImage _ x1 x2 x3 x4 x5 x6 x7 x8 x9 x10 x11 x12 x13 x14 x15 x16 x17
    x18 x19 x20 x21 x22 := s in
  mkImage a x1 x2 x3 x4 x5 x6 x7 x8 x9 x10 x11 x12 x13 x14 x15 x16 x17 x18
    x19 x20 x21 x22.
Definition set_Name (a : string) (s : Image) : Image :=
  let 'mkImage x0 _ x2 x3 x4 x5 x6 x7 x8 x9 x10 x11 x12 x13 x14 x15 x16 x17
    x18 x19 x20 x21 x22 := s in
  mkImage x0 a x2 x3 x4 x5 x6 x7 x8 x9 x10 x11 x12 x13 x14 x15 x16 x17 x18
    x19 x20 x21 x22.
Definition set_Status (a : ImageStatus) (s : Image) : Image :=
  let 'mkImage x0 x1 _ x3 x4 x5 x6 x7 x8 x9 x10 x11 x12 x13 x14 x15 x16 x17
    x18 x19 x20 x21 x22 := s in
  mkImage x0 x1 a x3 x4 x5 x6 x7 x8 x9 x10 x11 x12 x13 x14 x15 x16 x17 x18
    x19 x20 x21 x22.
Definition set_Tags (a : option (list string)) (s : Image) : Image :=
  let 'mkImage x0 x1 x2 _ x4 x5 x6 x7 x8 x9 x10 x11 x12 x13 x14 x15 x16 x17
    x18 x19 x20 x21 x22 := s in
  mkImage x0 x1 x2 a x4 x5 x6 x7 x8 x9 x10 x11 x12 x13 x14 x15 x16 x17 x18
    x19 x20 x21 x22.
Definition set_ContainerFormat (a : string) (s : Image) : Image :=
  let 'mkImage x0 x1 x2 x3 _ x5 x6 x7 x8 x9 x10 x11 x12 x13 x14 x15 x16 x17
    x18 x19 x20 x21 x22 := s in
  mkImage x0 x1 x2 x3 a x5 x6 x7 x8 x9 x10 x11 x12 x13 x14 x15 x16 x17 x18
    x19 x20 x21 x22.
Definition set_DiskFormat (a : string) (s : Image) : Image :=
  let 'mkImage x0 x1 x2 x3 x4 _ x6 x7 x8 x9 x10 x11 x12 x13 x14 x15 x16 x17
    x18 x19 x20 x21 x22 := s in
  mkImage x0 x1 x2 x3 x4 a x6 x7 x8 x9 x10 x11 x12 x13 x14 x15 x16 x17 x18
    x19 x20 x21 x22.
Definition set_MinDiskGigabytes (a : Z) (s : Image) : Image :=
  let 'mkImage x0 x1 x2 x3 x4 x5 _ x7 x8 x9 x10 x11 x12 x13 x14 x15 x16 x17
    x18 x19 x20 x21 x22 := s in
  mkImage x0 x1 x2 x3 x4 x5 a x7 x8 x9 x10 x11 x12 x13 x14 x15 x16 x17 x18
    x19 x20 x21 x22.
Definition set_MinRAMMegabytes (a : Z) (s : Image) : Image :=
  let 'mkImage x0 x1 x2 x3 x4 x5 x6 _ x8 x9 x10 x11 x12 x13 x14 x15 x16 x17
    x18 x19 x20 x21 x22 := s in
  mkImage x0 x1 x2 x3 x4 x5 x6 a x8 x9 x10 x11 x12 x13 x14 x15 x16 x17 x18
    x19 x20 x21 x22.
Definition set_Owner (a : string) (s : Image) : Image :=
  let 'mkImage x0 x1 x2 x3 x4 x5 x6 x7 _ x9 x10 x11 x12 x13 x14 x15 x16 x17
    x18 x19 x20 x21 x22 := s in
  mkImage x0 x1 x2 x3 x4 x5 x6 x7 a x9 x10 x11 x12 x13 x14 x15 x16 x17 x18
    x19 x20 x21 x22.
Definition set_Protected (a : bool) (s : Image) : Image :=
  let 'mkImage x0 x1 x2 x3 x4 x5 x6 x7 x8 _ x10 x11 x12 x13 x14 x15 x16 x17
    x18 x19 x20 x21 x22 := s in
  mkImage x0 x1 x2 x3 x4 x5 x6 x7 x8 a x10 x11 x12 x13 x14 x15 x16 x17 x18
    x19 x20 x21 x22.
Definition set_Visibility (a : ImageVisibility) (s : Image) : Image :=
  let 'mkImage x0 x1 x2 x3 x4 x5 x6 x7 x8 x9 _ x11 x12 x13 x14 x15 x16 x17
    x18 x19 x20 x21 x22 := s in
  mkImage x0 x1 x2 x3 x4 x5 x6 x7 x8 x9 a x11 x12 x13 x14 x15 x16 x17 x18 x19
    x20 x21 x22.
Definition set_Checksum (a : string) (s : Image) : Image :=
  let 'mkImage x0 x1 x2 x3 x4 x5 x6 x7 x8 x9 x10 _ x12 x13 x14 x15 x16 x17
    x18 x19 x20 x21 x22 := s in
  mkImage x0 x1 x2 x3 x4 x5 x6 x7 x8 x9 x10 a x12 x13 x14 x15 x16 x17 x18 x19
    x20 x21 x22.
Definition set_SizeBytes (a : Z) (s : Image) : Image :=
  let 'mkImage x0 x1 x2 x3 x4 x5 x6 x7 x8 x9 x10 x11 _ x13 x14 x15 x16 x17
    x18 x19 x20 x21 x22 := s in
  mkImage x0 x1 x2 x3 x4 x5 x6 x7 x8 x9 x10 x11 a x13 x14 x15 x16 x17 x18 x19
    x20 x21 x22.
Definition set_Metadata (a : option (gmap string string)) (s : Image) : Image :=
  let 'mkImage x0 x1 x2 x3 x4 x5 x6 x7 x8 x9 x10 x11 x12 _ x14 x15 x16 x17
    x18 x19 x20 x21 x22 := s in
  mkImage x0 x1 x2 x3 x4 x5 x6 x7 x8 x9 x10 x11 x12 a x14 x15 x16 x17 x18 x19
    x20 x21 x22.
Definition set_Properties (a : option (gmap string string)) (s : Image) :
  Image :=
  let 'mkImage x0 x1 x2 x3 x4 x5 x6 x7 x8 x9 x10 x11 x12 x13 _ x15 x16 x17
    x18 x19 x20 x21 x22 := s in
  mkImage x0 x1 x2 x3 x4 x5 x6 x7 x8 x9 x10 x11 x12 x13 a x15 x16 x17 x18 x19
    x20 x21 x22.
Definition set_CreatedAt (a : Time) (s : Image) : Image :=
  let 'mkImage x0 x1 x2 x3 x4 x5 x6 x7 x8 x9 x10 x11 x12 x13 x14 _ x16 x17
    x18 x19 x20 x21 x22 := s in
  mkImage x0 x1 x2 x3 x4 x5 x6 x7 x8 x9 x10 x11 x12 x13 x14 a x16 x17 x18 x19
    x20 x21 x22.
Definition set_UpdatedAt (a : Time) (s : Image) : Image :=
  let 'mkImage x0 x1 x2 x3 x4 x5 x6 x7 x8 x9 x10 x11 x12 x13 x14 x15 _ x17
    x18 x19 x20 x21 x22 := s in
  mkImage x0 x1 x2 x3 x4 x5 x6 x7 x8 x9 x10 x11 x12 x13 x14 x15 a x17 x18 x19
    x20 x21 x22.
Definition set_File (a : string) (s : Image) : Image :=
  let 'mkImage x0 x1 x2 x3 x4 x5 x6 x7 x8 x9 x10 x11 x12 x13 x14 x15 x16 _
    x18 x19 x20 x21 x22 := s in
  mkImage x0 x1 x2 x3 x4 x5 x6 x7 x8 x9 x10 x11 x12 x13 x14 x15 x16 a x18 x19
    x20 x21 x22.
Definition set_Schema (a : string) (s : Image) : Image :=
  let 'mkImage x0 x1 x2 x3 x4 x5 x6 x7 x8 x9 x10 x11 x12 x13 x14 x15 x16 x17
    _ x19 x20 x21 x22 := s in
  mkImage x0 x1 x2 x3 x4 x5 x6 x7 x8 x9 x10 x11 x12 x13 x14 x15 x16 x17 a x19
    x20 x21 x22.
Definition set_VirtualSize (a : Z) (s : Image) : Image :=
  let 'mkImage x0 x1 x2 x3 x4 x5 x6 x7 x8 x9 x10 x11 x12 x13 x14 x15 x16 x17
    x18 _ x20 x21 x22 := s in
  mkImage x0 x1 x2 x3 x4 x5 x6 x7 x8 x9 x10 x11 x12 x13 x14 x15 x16 x17 x18 a
    x20 x21 x22.
Definition set_Self (a : string) (s : Image) : Image :=
  let 'mkImage x0 x1 x2 x3 x4 x5 x6 x7 x8 x9 x10 x11 x12 x13 x14 x15 x16 x17
    x18 x19 _ x21 x22 := s in
  mkImage x0 x1 x2 x3 x4 x5 x6 x7 x8 x9 x10 x11 x12 x13 x14 x15 x16 x17 x18
    x19 a x21 x22.
Definition set_DirectURL (a : string) (s : Image) : Image :=
  let 'mkImage x0 x1 x2 x3 x4 x5 x6 x7 x8 x9 x10 x11 x12 x13 x14 x15 x16 x17
    x18 x19 x20 _ x22 := s in
  mkImage x0 x1 x2 x3 x4 x5 x6 x7 x8 x9 x10 x11 x12 x13 x14 x15 x16 x17 x18
    x19 x20 a x22.
Definition set_Locations (a : option (list string)) (s : Image) : Image :=
  let 'mkImage x0 x1 x2 x3 x4 x5 x6 x7 x8 x9 x10 x11 x12 x13 x14 x15 x16 x17
    x18 x19 x20 x21 _ := s in
  mkImage x0 x1 x2 x3 x4 x5 x6 x7 x8 x9 x10 x11 x12 x13 x14 x15 x16 x17 x18
    x19 x20 x21 a.

(** What [reflect] shows of a struct field: its name and the value of its
    [json] tag, when it has one. *)
Record StructField : Type := mkField { FieldName : string; jsonTag : option
  string }.

(** The fields of [Image], in the order of their declaration. *)
Definition Image_type : list StructField :=
  [ mkField "ID" (Some "id");
    mkField "Name" (Some "name");
    mkField "Status" (Some "status");
    mkField "Tags" (Some "tags");
    mkField "ContainerFormat" (Some "container_format");
    mkField "DiskFormat" (Some "disk_format");
    mkField "MinDiskGigabytes" (Some "min_disk");
    mkField "MinRAMMegabytes" (Some "min_ram");
    mkField "Owner" (Some "owner");
    mkField "Protected" (Some "protected");
    mkField "Visibility" (Some "visibility");
    mkField "Checksum" (Some "checksum");
    mkField "SizeBytes" (Some "size");
    mkField "Metadata" (Some "metadata");
    mkField "Properties" (Some "properties");
    mkField "CreatedAt" (Some "-");
    mkField "UpdatedAt" (Some "-");
    mkField "File" (Some "file");
    mkField "Schema" (Some "schema");
    mkField "VirtualSize" (Some "virtual_size");
    mkField "Self" (Some "self");
    mkField "DirectURL" (Some "direct_url");
    mkField "Locations" (Some "locations") ].

(** The anonymous struct that [Image.UnmarshalJSON] decodes into: the
    embedded [tmp], which is [Image] without its methods, and the three
    fields that need a conversion. *)
Record transient : Type := mkTransient {
  tmp : Image;
  tmp_SizeBytes : iface;
  tmp_CreatedAt : string;
  tmp_UpdatedAt : string
}.

Definition zero_transient : transient := mkTransient zero_Image INil "" "".

Definition set_tmp (a : Image) (p : transient) : transient :=
  mkTransient a (tmp_SizeBytes p) (tmp_CreatedAt p) (tmp_UpdatedAt p).
Definition set_tmp_SizeBytes (a : iface) (p : transient) : transient :=
  mkTransient (tmp p) a (tmp_CreatedAt p) (tmp_UpdatedAt p).
Definition set_tmp_CreatedAt (a : string) (p : transient) : transient :=
  mkTransient (tmp p) (tmp_SizeBytes p) a (tmp_UpdatedAt p).
Definition set_tmp_UpdatedAt (a : string) (p : transient) : transient :=
  mkTransient (tmp p) (tmp_SizeBytes p) (tmp_CreatedAt p) a.

Definition transient_type : list StructField :=
  [ mkField "tmp" None;
    mkField "SizeBytes" (Some "size");
    mkField "CreatedAt" (Some "created_at");
    mkField "UpdatedAt" (Some "updated_at") ].

(** A promoted field of the embedded [tmp]. *)
Definition in_tmp `{Platform} {A : Type} (name : string) (get : Image -> A)
  (set : A -> Image -> Image) (dec : decoder A) : field transient :=
  Field name (at_field tmp set_tmp (at_field get set dec)).

(** The fields of the anonymous struct as [encoding/json] sees them.  The
    fields of [tmp] are promoted; its [SizeBytes] is hidden by the shallower
    field of the same wire name, and its [CreatedAt] and [UpdatedAt] carry
    the tag ["-"]. *)
Definition transient_fields `{Platform} : list (field transient) :=
  [ in_tmp "id" ID set_ID decode_string;
    in_tmp "name" Name set_Name decode_string;
    in_tmp "status" Status set_Status decode_string;
    in_tmp "tags" Tags set_Tags (decode_slice decode_string "" "[]string");
    in_tmp "container_format" ContainerFormat set_ContainerFormat decode_string;
    in_tmp "disk_format" DiskFormat set_DiskFormat decode_string;
    in_tmp "min_disk" MinDiskGigabytes set_MinDiskGigabytes (decode_int "int");
    in_tmp "min_ram" MinRAMMegabytes set_MinRAMMegabytes (decode_int "int");
    in_tmp "owner" Owner set_Owner decode_string;
    in_tmp "protected" Protected set_Protected decode_bool;
    in_tmp "visibility" Visibility set_Visibility decode_string;
    in_tmp "checksum" Checksum set_Checksum decode_string;
    in_tmp "metadata" Metadata set_Metadata (decode_map decode_string ""
        "map[string]string");
    in_tmp "properties" Properties set_Properties (decode_map decode_string ""
        "map[string]string");
    in_tmp "file" File set_File decode_string;
    in_tmp "schema" Schema set_Schema decode_string;
    in_tmp "virtual_size" VirtualSize set_VirtualSize (decode_int "int64");
    in_tmp "self" Self set_Self decode_string;
    in_tmp "direct_url" DirectURL set_DirectURL decode_string;
    in_tmp "locations" Locations set_Locations (decode_slice decode_string ""
        "[]string");
    Field "size" (at_field tmp_SizeBytes set_tmp_SizeBytes decode_interface);
    Field "created_at" (at_field tmp_CreatedAt set_tmp_CreatedAt decode_string);
    Field "updated_at" (at_field tmp_UpdatedAt set_tmp_UpdatedAt
        decode_string) ].

(** A type with an [UnmarshalJSON] method is decoded by that method, for
    every JSON value, [null] included (the targets here are struct fields
    and slice elements, never pointers).  The error it returns stops the
    decoder, or is kept while the decoder goes on, as the platform has
    it. *)
Definition by_UnmarshalJSON `{Platform} {T : Type}
  (unmarshal : json -> T -> go_result (T * option error)) : decoder T :=
  fun j cur =>
    match unmarshal j cur with
    | Returns (v, None) => Cont v None
    | Returns (v, Some e) =>
        if method_error_stops then Stop v e else Cont v (Some e)
    | Panics => Crash
    end.

(** jsonTagKeys gets a list of JSON tag keys defined for the given struct.
    The argument is the struct type that [reflect.TypeOf(s).Elem()] finds. *)
Fixpoint jsonTagKeys (t : list StructField) : list string :=
  match t with
  | [] => []
  | field :: rest =>
      let key :=
        match jsonTag field with
        | Some tagValue => before_comma tagValue
        | None => ""
        end in
      if String.eqb key "-" then jsonTagKeys rest
      else
        let key :=
          if String.eqb key "" then strings_ToLower (FieldName field)
          else key in
        key :: jsonTagKeys rest
  end.

Definition string_of_iface (v : iface) : option string :=
  match v with
  | IString value => Some value
  | _ => None
  end.

Section Images.
Context `{Platform}.

(** unmarshalCustomProperties parses the JSON-encoded custom properties and
    stores the result in the Image.Properties field.  [st] is the struct
    type of the second argument. *)
Definition unmarshalCustomProperties (b : json) (st : list StructField)
  (s : Image) : go_result (Image * option error) :=
  match json_Unmarshal
          (decode_map decode_interface INil "map[string]interface {}")
          b (Some ∅) with
  | Panics => Panics
  | Returns (_, Some err) => Returns (s, Some err)
  | Returns (custom, None) =>
      let fields := jsonTagKeys Image_type in
      let fields := (fields ++ jsonTagKeys st)%list in
      let custom :=
        fold_left (fun custom field => delete field custom) fields
          (map_entries custom) in
      Returns (set_Properties (Some (omap string_of_iface custom)) s, None)
  end.

(** The name of the type of the anonymous struct, as [reflect] prints it
    in an error. *)
Definition transient_name : string :=
  "struct { images.tmp; SizeBytes interface {} " ++ json_tag "size" ++
  "; CreatedAt string " ++ json_tag "created_at" ++
  "; UpdatedAt string " ++ json_tag "updated_at" ++ " }".

(** [Image.UnmarshalJSON]: the receiver after the call and the error
    returned.  The case [float32] of the type switch is left out:
    [encoding/json] never stores a [float32] in an [interface{}]. *)
Definition Image_UnmarshalJSON (b : json) (s : Image)
  : go_result (Image * option error) :=
  match json_Unmarshal
          (decode_pointer (decode_struct transient_fields transient_name)
             zero_transient)
          b None with
  | Panics => Panics
  | Returns (_, Some err) => Returns (s, Some err)
  | Returns (None, None) => Panics
  | Returns (Some p, None) =>
      let s := tmp p in
      match tmp_SizeBytes p with
      | INil => Returns (s, None)
      | IFloat64 t =>
          let s := set_SizeBytes (int64_of_float64 t) s in
          let '(created, err) := time_Parse_RFC3339 (tmp_CreatedAt p) in
          let s := set_CreatedAt created s in
          match err with
          | Some err => Returns (s, Some err)
          | None =>
              let '(updated, _) := time_Parse_RFC3339 (tmp_UpdatedAt p) in
              let s := set_UpdatedAt updated s in
              unmarshalCustomProperties b transient_type s
          end
      | t => Returns (s, Some (UnknownSizeBytes (reflect_TypeOf t) t))
      end
  end.
End Images.

(** ** Results and pages *)

(** Modelled from the spec: [gophercloud.Result] is not under src/.  The
    spec's ResultEnvelope is a body and an optional transport error. *)
Record Result : Type := mkResult { Body : json; Err : option error }.

(** Modelled from the spec: [Result.ExtractInto] is not under src/.  "If
    the envelope carries a transport error, return it verbatim without
    attempting to decode.  Otherwise delegate to the decoder against the
    stored body", for a target of any shape.  The target is passed by
    pointer in the callers, hence returned here with the error. *)
Definition ExtractInto {T : Type} (r : Result) (dec : decoder T) (to : T)
  : go_result (T * option error) :=
  match Err r with
  | Some e => Returns (to, Some e)
  | None => json_Unmarshal dec (Body r) to
  end.

(** Modelled from the spec: [pagination.LinkedPageBase] is not under src/.
    The spec's LinkPage is the result of the page request and the URL it
    was made to. *)
Record LinkedPageBase : Type := mkLinkedPageBase {
  PageResult : Result;
  URL : string
}.

(** ImagePage represents page. *)
Record ImagePage : Type := mkImagePage { ImagePage_base : LinkedPageBase }.

(** VolumePage is a pagination.pager that is returned from a call to the
    List function. *)
Record VolumePage : Type := mkVolumePage { VolumePage_base : LinkedPageBase }.

(** A value of the interface type [pagination.Page]: nil, or a value of a
    concrete page type, of this or of another package. *)
Inductive Page : Type :=
| nil_Page
| Page_ImagePage (r : ImagePage)
| Page_VolumePage (r : VolumePage)
| Page_other (type_name : string) (r : LinkedPageBase).

Definition is_ImagePage (r : Page) : bool :=
  match r with
  | Page_ImagePage _ => true
  | _ => false
  end.

Definition is_VolumePage (r : Page) : bool :=
  match r with
  | Page_VolumePage _ => true
  | _ => false
  end.

(** [len] of a slice. *)
Definition len {T : Type} (s : option (list T)) : nat := length (slice_elems s).

(** Modelled from the spec: [nextPageURL] of package images is not under
    src/.  An empty next "indicates terminal page and must return an empty
    locator"; a relative next is resolved against the URL of the page
    request, by [resolve], which the spec does not detail. *)
Definition nextPageURL (resolve : string -> string -> string)
  (currentURL next : string) : string :=
  if String.eqb next "" then "" else resolve currentURL next.

Section ImagePages.
Context `{Platform}.
Variable resolve : string -> string -> string.

(** The target of [ExtractImages]. *)
Record images_body : Type := mkImagesBody { Images : option (list Image) }.

(** The decoder of an element of the images collection. *)
Definition decode_Image : decoder Image := by_UnmarshalJSON Image_UnmarshalJSON.

Definition images_body_fields : list (field images_body) :=
  [ Field "images"
      (at_field Images (fun a _ => mkImagesBody a)
         (decode_slice decode_Image zero_Image "[]images.Image")) ].

Definition decode_images_body : decoder images_body :=
  decode_struct images_body_fields
    ("struct { Images []images.Image " ++ json_tag "images" ++ " }").

(** ExtractImages interprets the results of a single page from a List()
    call, producing a slice of Image entities. *)
Definition ExtractImages (r : Page)
  : go_result (option (list Image) * option error) :=
  match r with
  | Page_ImagePage r =>
      match ExtractInto (PageResult (ImagePage_base r)) decode_images_body
              (mkImagesBody None) with
      | Returns (s, err) => Returns (Images s, err)
      | Panics => Panics
      end
  | _ => Panics
  end.

(** IsEmpty returns true if a page contains no Images results. *)
Definition ImagePage_IsEmpty (r : ImagePage) : go_result (bool * option error)
  :=
  match ExtractImages (Page_ImagePage r) with
  | Returns (images, err) => Returns (Nat.eqb (len images) 0, err)
  | Panics => Panics
  end.

(** The target of [ImagePage.NextPageURL]. *)
Record next_body : Type := mkNextBody { Next : string }.

Definition next_body_fields : list (field next_body) :=
  [ Field "next" (at_field Next (fun a _ => mkNextBody a) decode_string) ].

Definition decode_next_body : decoder next_body :=
  decode_struct next_body_fields
    ("struct { Next string " ++ json_tag "next" ++ " }").

(** NextPageURL uses the response's embedded link reference to navigate to
    the next page of results. *)
Definition ImagePage_NextPageURL (r : ImagePage)
  : go_result (string * option error) :=
  match ExtractInto (PageResult (ImagePage_base r)) decode_next_body
          (mkNextBody "") with
  | Panics => Panics
  | Returns (_, Some err) => Returns ("", Some err)
  | Returns (s, None) =>
      Returns (nextPageURL resolve (URL (ImagePage_base r)) (Next s), None)
  end.
End ImagePages.

(** ** Package volumes

    The fields of [Volume] and [Attachment] carry the name of their struct
    in front, several of them having the name of a field of [Image].

    [gophercloud.JSONRFC3339MilliNoZ] and its [UnmarshalJSON] method are
    declared outside src/: they are the parameters of what follows. *)

Class Timestamps : Type := {
  JSONRFC3339MilliNoZ : Type;
  zero_JSONRFC3339MilliNoZ : JSONRFC3339MilliNoZ;
  JSONRFC3339MilliNoZ_UnmarshalJSON :
    json -> JSONRFC3339MilliNoZ ->
    go_result (JSONRFC3339MilliNoZ * option error)
}.

(** Modelled from the spec: [gophercloud.Link] is not under src/.  The
    spec's structured link list is an array of {rel, href} pairs. *)
Record Link : Type := mkLink { Href : string; Rel : string }.

(** Modelled from the spec: [gophercloud.ExtractNextURL] is not under
    src/.  The next relation is extracted from the list of links; a list
    without one "indicates terminal page and must return an empty locator,
    not an error".  Of several next relations the last one counts. *)
Fixpoint next_href (links : list Link) (url : string) : string :=
  match links with
  | [] => url
  | l :: rest =>
      next_href rest (if String.eqb (Rel l) "next" then Href l else url)
  end.

(** Modelled from the spec: the result of [gophercloud.ExtractNextURL],
    the locator of the next relation with a nil error. *)
Definition ExtractNextURL (links : list Link) : string * option error :=
  (next_href links "", None).

Section Volumes.
Context `{Platform} `{Timestamps}.

(** An attachment of a volume to an instance. *)
Record Attachment : Type := mkAttachment {
  Attachment_AttachedAt : JSONRFC3339MilliNoZ;
  Attachment_AttachmentID : string;
  Attachment_Device : string;
  Attachment_HostName : string;
  Attachment_ID : string;
  Attachment_ServerID : string;
  Attachment_VolumeID : string
}.

Definition zero_Attachment : Attachment :=
  mkAttachment zero_JSONRFC3339MilliNoZ "" "" ""
    "" "" "".

Definition set_Attachment_AttachedAt (a : JSONRFC3339MilliNoZ) (s :
  Attachment) : Attachment :=
  let 'mkAttachment _ x1 x2 x3 x4 x5 x6 := s in
  mkAttachment a x1 x2 x3 x4 x5 x6.
Definition set_Attachment_AttachmentID (a : string) (s : Attachment) :
  Attachment :=
  let 'mkAttachment x0 _ x2 x3 x4 x5 x6 := s in
  mkAttachment x0 a x2 x3 x4 x5 x6.
Definition set_Attachment_Device (a : string) (s : Attachment) : Attachment :=
  let 'mkAttachment x0 x1 _ x3 x4 x5 x6 := s in
  mkAttachment x0 x1 a x3 x4 x5 x6.
Definition set_Attachment_HostName (a : string) (s : Attachment) : Attachment :=
  let 'mkAttachment x0 x1 x2 _ x4 x5 x6 := s in
  mkAttachment x0 x1 x2 a x4 x5 x6.
Definition set_Attachment_ID (a : string) (s : Attachment) : Attachment :=
  let 'mkAttachment x0 x1 x2 x3 _ x5 x6 := s in
  mkAttachment x0 x1 x2 x3 a x5 x6.
Definition set_Attachment_ServerID (a : string) (s : Attachment) : Attachment :=
  let 'mkAttachment x0 x1 x2 x3 x4 _ x6 := s in
  mkAttachment x0 x1 x2 x3 x4 a x6.
Definition set_Attachment_VolumeID (a : string) (s : Attachment) : Attachment :=
  let 'mkAttachment x0 x1 x2 x3 x4 x5 _ := s in
  mkAttachment x0 x1 x2 x3 x4 x5 a.

Definition Attachment_fields : list (field Attachment) :=
  [ Field "attached_at" (at_field Attachment_AttachedAt
      set_Attachment_AttachedAt (by_UnmarshalJSON
      JSONRFC3339MilliNoZ_UnmarshalJSON));
    Field "attachment_id" (at_field Attachment_AttachmentID
        set_Attachment_AttachmentID decode_string);
    Field "device" (at_field Attachment_Device set_Attachment_Device
        decode_string);
    Field "host_name" (at_field Attachment_HostName set_Attachment_HostName
        decode_string);
    Field "id" (at_field Attachment_ID set_Attachment_ID decode_string);
    Field "server_id" (at_field Attachment_ServerID set_Attachment_ServerID
        decode_string);
    Field "volume_id" (at_field Attachment_VolumeID set_Attachment_VolumeID
        decode_string) ].

(** Volume contains all the information associated with an OpenStack
    Volume. *)
Record Volume : Type := mkVolume {
  Volume_ID : string;
  Volume_Status : string;
  Volume_Size : Z;
  Volume_AvailabilityZone : string;
  Volume_CreatedAt : JSONRFC3339MilliNoZ;
  Volume_UpdatedAt : JSONRFC3339MilliNoZ;
  Volume_Attachments : option (list Attachment);
  Volume_Name : string;
  Volume_Description : string;
  Volume_VolumeType : string;
  Volume_SnapshotID : string;
  Volume_SourceVolID : string;
  Volume_Metadata : option (gmap string string);
  Volume_UserID : string;
  Volume_Bootable : string;
  Volume_Encrypted : bool;
  Volume_ReplicationStatus : string;
  Volume_ConsistencyGroupID : string;
  Volume_Multiattach : bool;
  Volume_VolumeImageMetadata : option (gmap string iface)
}.

Definition zero_Volume : Volume :=
  mkVolume "" "" 0 "" zero_JSONRFC3339MilliNoZ zero_JSONRFC3339MilliNoZ None
    "" "" ""
    "" "" None "" "" false "" "" false None.

Definition set_Volume_ID (a : string) (s : Volume) : Volume :=
  let 'mkVolume _ x1 x2 x3 x4 x5 x6 x7 x8 x9 x10 x11 x12 x13 x14 x15 x16 x17
    x18 x19 := s in
  mkVolume a x1 x2 x3 x4 x5 x6 x7 x8 x9 x10 x11 x12 x13 x14 x15 x16 x17 x18 x19.
Definition set_Volume_Status (a : string) (s : Volume) : Volume :=
  let 'mkVolume x0 _ x2 x3 x4 x5 x6 x7 x8 x9 x10 x11 x12 x13 x14 x15 x16 x17
    x18 x19 := s in
  mkVolume x0 a x2 x3 x4 x5 x6 x7 x8 x9 x10 x11 x12 x13 x14 x15 x16 x17 x18 x19.
Definition set_Volume_Size (a : Z) (s : Volume) : Volume :=
  let 'mkVolume x0 x1 _ x3 x4 x5 x6 x7 x8 x9 x10 x11 x12 x13 x14 x15 x16 x17
    x18 x19 := s in
  mkVolume x0 x1 a x3 x4 x5 x6 x7 x8 x9 x10 x11 x12 x13 x14 x15 x16 x17 x18 x19.
Definition set_Volume_AvailabilityZone (a : string) (s : Volume) : Volume :=
  let 'mkVolume x0 x1 x2 _ x4 x5 x6 x7 x8 x9 x10 x11 x12 x13 x14 x15 x16 x17
    x18 x19 := s in
  mkVolume x0 x1 x2 a x4 x5 x6 x7 x8 x9 x10 x11 x12 x13 x14 x15 x16 x17 x18 x19.
Definition set_Volume_CreatedAt (a : JSONRFC3339MilliNoZ) (s : Volume) :
  Volume :=
  let 'mkVolume x0 x1 x2 x3 _ x5 x6 x7 x8 x9 x10 x11 x12 x13 x14 x15 x16 x17
    x18 x19 := s in
  mkVolume x0 x1 x2 x3 a x5 x6 x7 x8 x9 x10 x11 x12 x13 x14 x15 x16 x17 x18 x19.
Definition set_Volume_UpdatedAt (a : JSONRFC3339MilliNoZ) (s : Volume) :
  Volume :=
  let 'mkVolume x0 x1 x2 x3 x4 _ x6 x7 x8 x9 x10 x11 x12 x13 x14 x15 x16 x17
    x18 x19 := s in
  mkVolume x0 x1 x2 x3 x4 a x6 x7 x8 x9 x10 x11 x12 x13 x14 x15 x16 x17 x18 x19.
Definition set_Volume_Attachments (a : option (list Attachment)) (s : Volume)
  : Volume :=
  let 'mkVolume x0 x1 x2 x3 x4 x5 _ x7 x8 x9 x10 x11 x12 x13 x14 x15 x16 x17
    x18 x19 := s in
  mkVolume x0 x1 x2 x3 x4 x5 a x7 x8 x9 x10 x11 x12 x13 x14 x15 x16 x17 x18 x19.
Definition set_Volume_Name (a : string) (s : Volume) : Volume :=
  let 'mkVolume x0 x1 x2 x3 x4 x5 x6 _ x8 x9 x10 x11 x12 x13 x14 x15 x16 x17
    x18 x19 := s in
  mkVolume x0 x1 x2 x3 x4 x5 x6 a x8 x9 x10 x11 x12 x13 x14 x15 x16 x17 x18 x19.
Definition set_Volume_Description (a : string) (s : Volume) : Volume :=
  let 'mkVolume x0 x1 x2 x3 x4 x5 x6 x7 _ x9 x10 x11 x12 x13 x14 x15 x16 x17
    x18 x19 := s in
  mkVolume x0 x1 x2 x3 x4 x5 x6 x7 a x9 x10 x11 x12 x13 x14 x15 x16 x17 x18 x19.
Definition set_Volume_VolumeType (a : string) (s : Volume) : Volume :=
  let 'mkVolume x0 x1 x2 x3 x4 x5 x6 x7 x8 _ x10 x11 x12 x13 x14 x15 x16 x17
    x18 x19 := s in
  mkVolume x0 x1 x2 x3 x4 x5 x6 x7 x8 a x10 x11 x12 x13 x14 x15 x16 x17 x18 x19.
Definition set_Volume_SnapshotID (a : string) (s : Volume) : Volume :=
  let 'mkVolume x0 x1 x2 x3 x4 x5 x6 x7 x8 x9 _ x11 x12 x13 x14 x15 x16 x17
    x18 x19 := s in
  mkVolume x0 x1 x2 x3 x4 x5 x6 x7 x8 x9 a x11 x12 x13 x14 x15 x16 x17 x18 x19.
Definition set_Volume_SourceVolID (a : string) (s : Volume) : Volume :=
  let 'mkVolume x0 x1 x2 x3 x4 x5 x6 x7 x8 x9 x10 _ x12 x13 x14 x15 x16 x17
    x18 x19 := s in
  mkVolume x0 x1 x2 x3 x4 x5 x6 x7 x8 x9 x10 a x12 x13 x14 x15 x16 x17 x18 x19.
Definition set_Volume_Metadata (a : option (gmap string string)) (s : Volume)
  : Volume :=
  let 'mkVolume x0 x1 x2 x3 x4 x5 x6 x7 x8 x9 x10 x11 _ x13 x14 x15 x16 x17
    x18 x19 := s in
  mkVolume x0 x1 x2 x3 x4 x5 x6 x7 x8 x9 x10 x11 a x13 x14 x15 x16 x17 x18 x19.
Definition set_Volume_UserID (a : string) (s : Volume) : Volume :=
  let 'mkVolume x0 x1 x2 x3 x4 x5 x6 x7 x8 x9 x10 x11 x12 _ x14 x15 x16 x17
    x18 x19 := s in
  mkVolume x0 x1 x2 x3 x4 x5 x6 x7 x8 x9 x10 x11 x12 a x14 x15 x16 x17 x18 x19.
Definition set_Volume_Bootable (a : string) (s : Volume) : Volume :=
  let 'mkVolume x0 x1 x2 x3 x4 x5 x6 x7 x8 x9 x10 x11 x12 x13 _ x15 x16 x17
    x18 x19 := s in
  mkVolume x0 x1 x2 x3 x4 x5 x6 x7 x8 x9 x10 x11 x12 x13 a x15 x16 x17 x18 x19.
Definition set_Volume_Encrypted (a : bool) (s : Volume) : Volume :=
  let 'mkVolume x0 x1 x2 x3 x4 x5 x6 x7 x8 x9 x10 x11 x12 x13 x14 _ x16 x17
    x18 x19 := s in
  mkVolume x0 x1 x2 x3 x4 x5 x6 x7 x8 x9 x10 x11 x12 x13 x14 a x16 x17 x18 x19.
Definition set_Volume_ReplicationStatus (a : string) (s : Volume) : Volume :=
  let 'mkVolume x0 x1 x2 x3 x4 x5 x6 x7 x8 x9 x10 x11 x12 x13 x14 x15 _ x17
    x18 x19 := s in
  mkVolume x0 x1 x2 x3 x4 x5 x6 x7 x8 x9 x10 x11 x12 x13 x14 x15 a x17 x18 x19.
Definition set_Volume_ConsistencyGroupID (a : string) (s : Volume) : Volume :=
  let 'mkVolume x0 x1 x2 x3 x4 x5 x6 x7 x8 x9 x10 x11 x12 x13 x14 x15 x16 _
    x18 x19 := s in
  mkVolume x0 x1 x2 x3 x4 x5 x6 x7 x8 x9 x10 x11 x12 x13 x14 x15 x16 a x18 x19.
Definition set_Volume_Multiattach (a : bool) (s : Volume) : Volume :=
  let 'mkVolume x0 x1 x2 x3 x4 x5 x6 x7 x8 x9 x10 x11 x12 x13 x14 x15 x16 x17
    _ x19 := s in
  mkVolume x0 x1 x2 x3 x4 x5 x6 x7 x8 x9 x10 x11 x12 x13 x14 x15 x16 x17 a x19.
Definition set_Volume_VolumeImageMetadata (a : option (gmap string iface)) (s
  : Volume) : Volume :=
  let 'mkVolume x0 x1 x2 x3 x4 x5 x6 x7 x8 x9 x10 x11 x12 x13 x14 x15 x16 x17
    x18 _ := s in
  mkVolume x0 x1 x2 x3 x4 x5 x6 x7 x8 x9 x10 x11 x12 x13 x14 x15 x16 x17 x18 a.

Definition Volume_fields : list (field Volume) :=
  [ Field "id" (at_field Volume_ID set_Volume_ID decode_string);
    Field "status" (at_field Volume_Status set_Volume_Status decode_string);
    Field "size" (at_field Volume_Size set_Volume_Size (decode_int "int"));
    Field "availability_zone" (at_field Volume_AvailabilityZone
        set_Volume_AvailabilityZone decode_string);
    Field "created_at" (at_field Volume_CreatedAt set_Volume_CreatedAt
        (by_UnmarshalJSON JSONRFC3339MilliNoZ_UnmarshalJSON));
    Field "updated_at" (at_field Volume_UpdatedAt set_Volume_UpdatedAt
        (by_UnmarshalJSON JSONRFC3339MilliNoZ_UnmarshalJSON));
    Field "attachments" (at_field Volume_Attachments set_Volume_Attachments
        (decode_slice (decode_struct Attachment_fields "volumes.Attachment")
        zero_Attachment "[]volumes.Attachment"));
    Field "name" (at_field Volume_Name set_Volume_Name decode_string);
    Field "description" (at_field Volume_Description set_Volume_Description
        decode_string);
    Field "volume_type" (at_field Volume_VolumeType set_Volume_VolumeType
        decode_string);
    Field "snapshot_id" (at_field Volume_SnapshotID set_Volume_SnapshotID
        decode_string);
    Field "source_volid" (at_field Volume_SourceVolID set_Volume_SourceVolID
        decode_string);
    Field "metadata" (at_field Volume_Metadata set_Volume_Metadata (decode_map
        decode_string "" "map[string]string"));
    Field "user_id" (at_field Volume_UserID set_Volume_UserID decode_string);
    Field "bootable" (at_field Volume_Bootable set_Volume_Bootable
        decode_string);
    Field "encrypted" (at_field Volume_Encrypted set_Volume_Encrypted
        decode_bool);
    Field "replication_status" (at_field Volume_ReplicationStatus
        set_Volume_ReplicationStatus decode_string);
    Field "consistencygroup_id" (at_field Volume_ConsistencyGroupID
        set_Volume_ConsistencyGroupID decode_string);
    Field "multiattach" (at_field Volume_Multiattach set_Volume_Multiattach
        decode_bool);
    Field "volume_image_metadata" (at_field Volume_VolumeImageMetadata
        set_Volume_VolumeImageMetadata (decode_map decode_interface INil
        "map[string]interface {}")) ].

(** The target of [ExtractVolumes]. *)
Record volumes_body : Type := mkVolumesBody { Volumes : option (list Volume) }.

(** The decoder of an element of the volumes collection. *)
Definition decode_Volume : decoder Volume :=
  decode_struct Volume_fields "volumes.Volume".

Definition volumes_body_fields : list (field volumes_body) :=
  [ Field "volumes"
      (at_field Volumes (fun a _ => mkVolumesBody a)
         (decode_slice decode_Volume zero_Volume "[]volumes.Volume")) ].

Definition decode_volumes_body : decoder volumes_body :=
  decode_struct volumes_body_fields
    ("struct { Volumes []volumes.Volume " ++ json_tag "volumes" ++ " }").

(** ExtractVolumes extracts and returns Volumes. It is used while iterating
    over a volumes.List call. *)
Definition ExtractVolumes (r : Page)
  : go_result (option (list Volume) * option error) :=
  match r with
  | Page_VolumePage r =>
      match ExtractInto (PageResult (VolumePage_base r)) decode_volumes_body
              (mkVolumesBody None) with
      | Returns (s, err) => Returns (Volumes s, err)
      | Panics => Panics
      end
  | _ => Panics
  end.

(** IsEmpty returns true if a ListResult contains no Volumes. *)
Definition VolumePage_IsEmpty (r : VolumePage) : go_result (bool * option
  error) :=
  match ExtractVolumes (Page_VolumePage r) with
  | Returns (volumes, err) => Returns (Nat.eqb (len volumes) 0, err)
  | Panics => Panics
  end.

Definition set_Href (a : string) (l : Link) : Link := mkLink a (Rel l).
Definition set_Rel (a : string) (l : Link) : Link := mkLink (Href l) a.

Definition Link_fields : list (field Link) :=
  [ Field "href" (at_field Href set_Href decode_string);
    Field "rel" (at_field Rel set_Rel decode_string) ].

(** The target of [VolumePage.NextPageURL]. *)
Record links_body : Type := mkLinksBody { Links : option (list Link) }.

Definition links_body_fields : list (field links_body) :=
  [ Field "volumes_links"
      (at_field Links (fun a _ => mkLinksBody a)
         (decode_slice (decode_struct Link_fields "gophercloud.Link")
            (mkLink "" "") "[]gophercloud.Link")) ].

Definition decode_links_body : decoder links_body :=
  decode_struct links_body_fields
    ("struct { Links []gophercloud.Link " ++ json_tag "volumes_links" ++
     " }").

(** NextPageURL uses the response's embedded link reference to navigate to
    the next page of results. *)
Definition VolumePage_NextPageURL (page : VolumePage)
  : go_result (string * option error) :=
  match ExtractInto (PageResult (VolumePage_base page)) decode_links_body
          (mkLinksBody None) with
  | Panics => Panics
  | Returns (_, Some err) => Returns ("", Some err)
  | Returns (s, None) => Returns (ExtractNextURL (slice_elems (Links s)))
  end.
End Volumes.

(** ** Payloads, as the statements below speak of them *)

Section Members.
Context `{Platform} {S : Type}.

(** The member of key [k] is decoded into the field of wire name [w]. *)
Definition binds (fs : list (field S)) (w k : string) : bool :=
  match find_field fs k with
  | Some f => String.eqb (wire f) w
  | None => false
  end.

(** The member of an object that decides the field of wire name [w]: the
    last one decoded into it.  [None]: the payload has no member for the
    field, the field is absent from it. *)
Fixpoint wire_member (fs : list (field S)) (w : string)
  (o : list (string * json)) : option json :=
  match o with
  | [] => None
  | (k, v) :: rest =>
      match wire_member fs w rest with
      | Some x => Some x
      | None => if binds fs w k then Some v else None
      end
  end.
End Members.

(** The member of an image payload for a wire name of the Image model. *)
Definition image_member `{Platform} (w : string) (o : list (string * json))
  : option json :=
  wire_member transient_fields w o.

(** The modeled attributes of an image payload decode: [json.Unmarshal]
    fills the anonymous struct and reports no error. *)
Definition decodes_to `{Platform} (o : list (string * json)) (p : transient)
  : Prop :=
  decode_members transient_fields o zero_transient = Cont p None.

(** The KnownFieldSet of the Image entity: the wire names of [Image] and
    those of the anonymous struct used while decoding. *)
Definition KnownFieldSet : list string :=
  (jsonTagKeys Image_type ++ jsonTagKeys transient_type)%list.

(** No number of the document is too large for a float64. *)
Fixpoint finite_numbers (j : json) : bool :=
  match j with
  | JNum n => match strconv_ParseFloat n with Some _ => true | None => false end
  | JArr l =>
      (fix all (l : list json) : bool :=
         match l with
         | [] => true
         | x :: rest => finite_numbers x && all rest
         end) l
  | JObj o =>
      (fix all (o : list (string * json)) : bool :=
         match o with
         | [] => true
         | (_, x) :: rest => finite_numbers x && all rest
         end) o
  | _ => true
  end.

(** How a decoder of a whole struct relates to one component [get] of it:
    it leaves the component alone, or it acts on it as [dec] does. *)
Definition preserves {S A : Type} (get : S -> A) (d : decoder S) : Prop :=
  forall j s,
    match d j s with
    | Cont s' _ | Stop s' _ => get s' = get s
    | Crash => True
    end.

Definition tracks {S A : Type} (get : S -> A) (dec : decoder A)
  (d : decoder S) : Prop :=
  forall j s,
    match d j s with
    | Cont s' e => dec j (get s) = Cont (get s') e
    | Stop s' e => dec j (get s) = Stop (get s') e
    | Crash => dec j (get s) = Crash
    end.

Definition fits {S A : Type} (w : string) (get : S -> A) (dec : decoder A)
  (f : field S) : Prop :=
  if String.eqb (wire f) w then tracks get dec (store f)
  else preserves get (store f).

(** A decoder that never stops and never panics. *)
Definition steady {T : Type} (d : decoder T) : Prop :=
  forall j s, exists s' e, d j s = Cont s' e.

(** ** A platform and payloads to evaluate the definitions on

    [go_amd64]: ASCII case folding, which is Go's on ASCII keys, the
    result of the amd64 conversion instruction for a float64 out of the
    range of int64, and a decoder that goes on after the error of an
    [UnmarshalJSON] method.  [go_amd64_stopping] is the same with a decoder
    that gives up at that error. *)

Definition go_amd64 : Platform := {|
  foldName := strings_ToLower;
  int64_out_of_range := fun _ => int64_min;
  method_error_stops := false
|}.

Definition go_amd64_stopping : Platform := {|
  foldName := strings_ToLower;
  int64_out_of_range := fun _ => int64_min;
  method_error_stops := true
|}.

(** Timestamps kept as the text they came in, for the examples on volumes. *)
Definition text_timestamps : Timestamps := {|
  JSONRFC3339MilliNoZ := string;
  zero_JSONRFC3339MilliNoZ := "";
  JSONRFC3339MilliNoZ_UnmarshalJSON :=
    fun j cur =>
      match j with
      | JStr s => Returns (s, None)
      | _ => Returns (cur, Some (type_error j "string"))
      end
|}.

Definition a_time : string := "2016-08-17T07:21:33Z".
Definition the_time : Time := mkTime 2016 8 17 7 21 33 0 0.

(** The value [encoding/json] stores in an [interface{}] for a JSON value. *)
Definition iface_of (v : json) : iface := fst (valueInterface v).

(** The payload decoded as [map[string]interface{}], as
    [unmarshalCustomProperties] does first, and the error of that decode. *)
Definition custom_of (o : list (string * json))
  : gmap string iface * option error :=
  match decode_entries decode_interface INil o ∅ with
  | Cont m e => (m, e)
  | _ => (∅, None)
  end.

(** The Properties that [unmarshalCustomProperties] computes. *)
Definition custom_properties (st : list StructField)
  (o : list (string * json)) : gmap string string :=
  omap string_of_iface
    (fold_left (fun custom field => delete field custom)
       (jsonTagKeys Image_type ++ jsonTagKeys st)%list
       (fst (custom_of o))).

(** An image as the list call returns it. *)
Definition active_image : list (string * json) :=
  [ ("id", JStr "da3b75d9-3f4a-40e7-8a2c-bfab23927dea");
    ("name", JStr "cirros-0.3.2-x86_64-disk");
    ("status", JStr "active");
    ("tags", JArr []);
    ("container_format", JStr "bare");
    ("disk_format", JStr "qcow2");
    ("min_disk", JNum (NInt 0));
    ("min_ram", JNum (NInt 0));
    ("protected", JBool false);
    ("visibility", JStr "public");
    ("size", JNum (NInt 13167616));
    ("created_at", JStr a_time);
    ("updated_at", JStr a_time);
    ("hw_disk_bus", JStr "scsi");
    ("hw_cpu_cores", JNum (NInt 2)) ].

(** The same image while queued: no data yet, its size is null. *)
Definition queued_image : list (string * json) :=
  [ ("id", JStr "da3b75d9-3f4a-40e7-8a2c-bfab23927dea");
    ("status", JStr "queued");
    ("size", JNull);
    ("created_at", JStr a_time);
    ("updated_at", JStr a_time);
    ("hw_disk_bus", JStr "scsi") ].

(** Without a creation date. *)
Definition undated_image : list (string * json) :=
  [ ("id", JStr "da3b75d9-3f4a-40e7-8a2c-bfab23927dea");
    ("size", JNum (NInt 13167616));
    ("updated_at", JStr a_time) ].

(** With a creation date that [time.Parse] rejects, and no date of
    update. *)
Definition misdated_image : list (string * json) :=
  [ ("id", JStr "da3b75d9-3f4a-40e7-8a2c-bfab23927dea");
    ("size", JNum (NInt 13167616));
    ("created_at", JStr "17 Aug 2016") ].

Definition created_image : list (string * json) :=
  [ ("id", JStr "da3b75d9-3f4a-40e7-8a2c-bfab23927dea");
    ("size", JNum (NInt 13167616));
    ("created_at", JStr a_time) ].

(** With a properties object of its own, and no size. *)
Definition nested_properties_image : list (string * json) :=
  [ ("id", JStr "da3b75d9-3f4a-40e7-8a2c-bfab23927dea");
    ("tmp", JStr "scratch");
    ("properties", JObj [("tmp", JStr "nested")]) ].

(** With a member named tmp among the custom properties. *)
Definition tmp_image : list (string * json) :=
  [ ("id", JStr "da3b75d9-3f4a-40e7-8a2c-bfab23927dea");
    ("size", JNum (NInt 13167616));
    ("created_at", JStr a_time);
    ("updated_at", JStr a_time);
    ("tmp", JStr "scratch");
    ("hw_disk_bus", JStr "scsi") ].

(** The size written in several ways. *)
Definition sized_image (size : json) : list (string * json) :=
  [ ("id", JStr "da3b75d9-3f4a-40e7-8a2c-bfab23927dea");
    ("size", size);
    ("created_at", JStr a_time);
    ("updated_at", JStr a_time) ].



Definition is_null (v : json) : bool :=
  match v with
  | JNull => true
  | _ => false
  end.

(** With a properties object of its own, as the Image model allows, and no
    size. *)
Definition labelled_image : list (string * json) :=
  [ ("id", JStr "da3b75d9-3f4a-40e7-8a2c-bfab23927dea");
    ("status", JStr "queued");
    ("properties", JObj [("os_distro", JStr "cirros")]) ].

(** The anonymous struct after [json.Unmarshal] of a payload, on
    [go_amd64]. *)
Definition decoded (o : list (string * json)) : transient :=
  match decode_members (H := go_amd64) (transient_fields (H := go_amd64)) o
          zero_transient with
  | Cont p _ => p
  | _ => zero_transient
  end.

(** The Image that [Image.UnmarshalJSON] leaves and the error it returns,
    on [go_amd64] and a fresh Image. *)
Definition unmarshalled (b : json) : go_result (Image * option error) :=
  Image_UnmarshalJSON (H := go_amd64) b zero_Image.

(** The Image a call has left. *)
Definition image_of (r : go_result (Image * option error)) : Image :=
  match r with
  | Returns (img, _) => img
  | Panics => zero_Image
  end.

(** The modeled attributes of an Image by the Go type they are decoded
    into, each with its wire name. *)
Definition string_attributes : list (string * (Image -> string)) :=
  [ ("id", ID); ("name", Name); ("status", Status);
    ("container_format", ContainerFormat); ("disk_format", DiskFormat);
    ("owner", Owner); ("visibility", Visibility); ("checksum", Checksum);
    ("file", File); ("schema", Schema); ("self", Self);
    ("direct_url", DirectURL) ].

Definition integer_attributes : list (string * string * (Image -> Z)) :=
  [ ("min_disk", "int", MinDiskGigabytes);
    ("min_ram", "int", MinRAMMegabytes);
    ("virtual_size", "int64", VirtualSize) ].

Definition list_attributes : list (string * (Image -> option (list string))) :=
  [ ("tags", Tags); ("locations", Locations) ].

(** A component of an Image that the assignments following the type
    switch of [Image.UnmarshalJSON] leave alone. *)
Definition kept {A : Type} (get : Image -> A) : Prop :=
  forall a b c d s,
    get (set_Properties a (set_UpdatedAt b (set_CreatedAt c
      (set_SizeBytes d s)))) = get s.

(** Sizes and dates to compare decodes on. *)
Definition two_to_the_53 : Z := 9007199254740992.



(** No member of the object is decoded into a field. *)
Definition no_member `{Platform} {S : Type} (fs : list (field S))
  (o : list (string * json)) : Prop :=
  Forall (fun m => find_field fs (fst m) = None) o.

(** Pages of a list call that met no transport error. *)
Definition image_page (body : json) : ImagePage :=
  mkImagePage
    (mkLinkedPageBase (mkResult body None) "http://glance:9292/v2/images").

Definition volume_page (body : json) : VolumePage :=
  mkVolumePage
    (mkLinkedPageBase (mkResult body None) "http://cinder:8776/v2/volumes").


(** A page of two volumes, the first with a size that is a string. *)
Definition half_good_volumes : json :=
  JObj [("volumes",
         JArr [JObj [("id", JStr "v1"); ("size", JStr "ten")];
               JObj [("id", JStr "v2"); ("size", JNum (NInt 10))]])].

(** The last page of a listing: no next reference. *)
Definition last_images : json := JObj [("images", JArr [JObj active_image])].

Definition last_volumes : json :=
  JObj [("volumes", JArr [JObj [("id", JStr "v2")]]);
        ("volumes_links",
         JArr [JObj [("rel", JStr "previous");
                     ("href", JStr
                         "http://cinder:8776/v2/volumes?marker=v1")]])].

(** Resolution of a reference by concatenation, for the examples. *)
Definition join_url (currentURL next : string) : string := currentURL ++ next.

(** The extractors and the page methods on [go_amd64] and
    [text_timestamps]. *)
Definition extracted_images (r : Page)
  : go_result (option (list Image) * option error) :=
  ExtractImages (H := go_amd64) r.

Definition extracted_volumes (r : Page)
  : go_result (option (list (@Volume text_timestamps)) * option error) :=
  @ExtractVolumes go_amd64 text_timestamps r.

Definition images_empty (r : ImagePage) : go_result (bool * option error) :=
  ImagePage_IsEmpty (H := go_amd64) r.

Definition volumes_empty (r : VolumePage) : go_result (bool * option error) :=
  @VolumePage_IsEmpty go_amd64 text_timestamps r.

Definition next_images (r : ImagePage) : go_result (string * option error) :=
  ImagePage_NextPageURL (H := go_amd64) join_url r.

Definition next_volumes (r : VolumePage) : go_result (string * option error) :=
  VolumePage_NextPageURL (H := go_amd64) r.

(** A page without images. *)
Definition no_images : json := JObj [("images", JArr [])].

(** ** The rest of the two files *)

(** Extract interprets any commonResult as an Image.  The target is a nil
    pointer to an Image: [null] leaves it nil, any other body is decoded by
    [Image.UnmarshalJSON] into a fresh Image that the pointer is set to. *)
Definition images_Extract `{Platform} (r : Result)
  : go_result (option Image * option error) :=
  ExtractInto r (decode_pointer decode_Image zero_Image) None.

(** JSON values that a string field, and an integer field, report as a
    type error. *)
Definition not_a_string (v : json) : bool :=
  match v with
  | JStr _ | JNull => false
  | _ => true
  end.

Definition not_an_integer (v : json) : bool :=
  match v with
  | JNum (NInt z) => negb (in_int64 z)
  | JNull => false
  | _ => true
  end.

Definition not_a_list (v : json) : bool :=
  match v with
  | JArr _ | JNull => false
  | _ => true
  end.

Definition is_object (v : json) : bool :=
  match v with
  | JObj _ => true
  | _ => false
  end.

(** The attributes of a Volume that are strings, each with its wire
    name. *)
Definition volume_string_attributes `{Timestamps}
  : list (string * (Volume -> string)) :=
  [ ("id", Volume_ID); ("status", Volume_Status);
    ("availability_zone", Volume_AvailabilityZone); ("name", Volume_Name);
    ("description", Volume_Description); ("volume_type", Volume_VolumeType);
    ("snapshot_id", Volume_SnapshotID); ("source_volid", Volume_SourceVolID);
    ("user_id", Volume_UserID); ("bootable", Volume_Bootable);
    ("replication_status", Volume_ReplicationStatus);
    ("consistencygroup_id", Volume_ConsistencyGroupID) ].

(** The member of a volume payload for a wire name of the Volume model. *)
Definition volume_member `{Platform} `{Timestamps} (w : string)
  (o : list (string * json)) : option json :=
  wire_member Volume_fields w o.

(** Payloads for what follows: an image whose name is written with a
    capital, one whose id is a number, one whose date of update
    [time.Parse] rejects, a volume whose size is a string. *)
Definition capital_image : list (string * json) :=
  [ ("id", JStr "da3b75d9-3f4a-40e7-8a2c-bfab23927dea");
    ("Name", JStr "cirros");
    ("size", JNum (NInt 13167616));
    ("created_at", JStr a_time);
    ("updated_at", JStr a_time) ].

Definition numbered_image : list (string * json) :=
  [ ("id", JNum (NInt 7));
    ("size", JNum (NInt 13167616));
    ("created_at", JStr a_time) ].

Definition misupdated_image : list (string * json) :=
  [ ("id", JStr "da3b75d9-3f4a-40e7-8a2c-bfab23927dea");
    ("size", JNum (NInt 13167616));
    ("created_at", JStr a_time);
    ("updated_at", JStr "yesterday") ].

Definition mistyped_volume : list (string * json) :=
  [ ("id", JStr "v1"); ("size", JStr "ten"); ("name", JStr "data") ].

(** An Image with something in every kind of field, to stand for a receiver
    that is not fresh. *)
Definition used_Image : Image :=
  mkImage "old" "old" "old" (Some ["old"]) "old" "old" 1 1 "old" true "old"
    "old" 1 (Some {[ "old" := "old" ]}) (Some {[ "old" := "old" ]}) the_time
    the_time "old" "old" 1 "old" "old" (Some ["old"]).

(** A page whose next reference is a number, and one whose links are an
    object. *)
Definition numbered_next : json :=
  JObj [("images", JArr []); ("next", JNum (NInt 2))].

Definition linked_volumes : json :=
  JObj [("volumes", JArr []);
        ("volumes_links", JObj [("rel", JStr "next")])].

(** An image whose dates are outside RFC 3339 and accepted by
    [time.Parse]: an hour of one digit, a comma before the fraction and an
    offset of 24 hours. *)
Definition loosely_dated_image : list (string * json) :=
  [ ("id", JStr "da3b75d9-3f4a-40e7-8a2c-bfab23927dea");
    ("size", JNum (NInt 13167616));
    ("created_at", JStr "2016-08-17T7:21:33Z");
    ("updated_at", JStr "2016-08-17T07:21:33,5+24:00") ].

(** A page of two images, the first with a creation date that [time.Parse]
    rejects. *)
Definition bad_first_images : json :=
  JObj [("images", JArr [JObj misdated_image; JObj active_image])].



(** The methods of the rest of the file on [go_amd64]. *)
Definition extracted (r : Result) : go_result (option Image * option error) :=
  images_Extract (H := go_amd64) r.

Definition decoded_volume (o : list (string * json))
  : dres (@Volume text_timestamps) :=
  @decode_Volume go_amd64 text_timestamps (JObj o)
    (@zero_Volume text_timestamps).

(** The Volume a decode has left, and the error it has saved. *)
Definition volume_of (r : dres (@Volume text_timestamps))
  : @Volume text_timestamps :=
  match r with
  | Cont vol _ | Stop vol _ => vol
  | Crash => @zero_Volume text_timestamps
  end.

Definition saved_error {T : Type} (r : dres T) : option error :=
  match r with
  | Cont _ e => e
  | Stop _ e => Some e
  | Crash => None
  end.



(** * Properties *)

(** ** The decoder *)

Lemma first_error_None (e1 e2 : option error) :
  first_error e1 e2 = None <-> e1 = None /\ e2 = None.
Proof. destruct e1, e2; simpl; intuition congruence. Qed.

Section DecoderFacts.
Context `{Platform} {S : Type}.
Implicit Types (fs : list (field S)) (o : list (string * json)) (s : S).

Lemma find_field_elem fs k f : find_field fs k = Some f -> f ∈ fs.
Proof.
  unfold find_field. intros Hf. apply list_elem_of_In.
  destruct (find (fun f => String.eqb (wire f) k) fs) eqn:E.
  - inversion Hf; subst. apply find_some in E. tauto.
  - apply find_some in Hf. tauto.
Qed.

(** A member decoded into no field changes nothing. *)
Lemma decode_members_skip fs k v o s :
  find_field fs k = None ->
  decode_members fs ((k, v) :: o) s = decode_members fs o s.
Proof. intros E. simpl. now rewrite E. Qed.

(** A clean decode of an object is a clean decode of each part of it. *)
Lemma decode_members_app fs o1 o2 s s' :
  decode_members fs (o1 ++ o2) s = Cont s' None ->
  exists s1, decode_members fs o1 s = Cont s1 None /\
             decode_members fs o2 s1 = Cont s' None.
Proof.
  revert s. induction o1 as [|[k v] o1 IH]; intros s Hd; simpl in *.
  - eauto.
  - destruct (find_field fs k) as [f|]; [|auto].
    destruct (store f v s) as [s1 e1| |]; try discriminate.
    destruct (decode_members fs (o1 ++ o2) s1) as [s2 e2| |] eqn:E;
      try discriminate.
    inversion Hd as [[Hs He]]; subst.
    apply first_error_None in He as [-> ->].
    destruct (IH _ E) as (s3 & H1 & H2). exists s3. now rewrite H1.
Qed.

Lemma decode_members_steady fs :
  Forall (fun f => steady (store f)) fs ->
  forall o s, exists s' e, decode_members fs o s = Cont s' e.
Proof.
  intros Hfs o. induction o as [|[k v] o IH]; intros s; simpl.
  - eauto.
  - destruct (find_field fs k) as [f|] eqn:E; [|auto].
    apply find_field_elem in E.
    rewrite Forall_forall in Hfs. destruct (Hfs _ E v s) as (s1 & e1 & ->).
    destruct (IH s1) as (s2 & e2 & ->). eauto.
Qed.

Section Component.
Context {A : Type} (get : S -> A).

(** A component that no field touches comes out as it went in. *)
Lemma decode_members_preserves fs :
  Forall (fun f => preserves get (store f)) fs ->
  forall o s,
    match decode_members fs o s with
    | Cont s' _ | Stop s' _ => get s' = get s
    | Crash => True
    end.
Proof.
  intros Hfs o. induction o as [|[k v] o IH]; intros s; simpl.
  - reflexivity.
  - destruct (find_field fs k) as [f|] eqn:E; [|apply IH].
    apply find_field_elem in E. rewrite Forall_forall in Hfs.
    specialize (Hfs _ E v s).
    destruct (store f v s) as [s1 e1|s1 e1|]; auto.
    specialize (IH s1).
    destruct (decode_members fs o s1); auto; congruence.
Qed.

(** After a clean decode, the component of wire name [w] is what its
    decoder made of the member that decides it. *)
Lemma decode_members_member fs w (dec : decoder A) :
  Forall (fits w get dec) fs ->
  forall o s s',
    decode_members fs o s = Cont s' None ->
    match wire_member fs w o with
    | None => get s' = get s
    | Some v => exists a0, dec v a0 = Cont (get s') None
    end.
Proof.
  intros Hfs o. induction o as [|[k v] o IH]; intros s s' Hd; simpl in *.
  - now inversion Hd.
  - unfold binds. destruct (find_field fs k) as [f|] eqn:E.
    + apply find_field_elem in E. rewrite Forall_forall in Hfs.
      specialize (Hfs _ E). unfold fits in Hfs.
      destruct (store f v s) as [s1 e1| |] eqn:Es; try discriminate.
      destruct (decode_members fs o s1) as [s2 e2| |] eqn:Ed;
        try discriminate.
      inversion Hd as [[Hs He]]; subst.
      apply first_error_None in He as [-> ->].
      specialize (IH _ _ Ed).
      destruct (wire_member fs w o); [exact IH|].
      destruct (String.eqb (wire f) w).
      * specialize (Hfs v s). rewrite Es in Hfs.
        exists (get s). now rewrite IH.
      * specialize (Hfs v s). rewrite Es in Hfs. congruence.
    + specialize (IH _ _ Hd). now destruct (wire_member fs w o).
Qed.
End Component.
End DecoderFacts.

Lemma at_field_tracks {S A : Type} (get : S -> A) (set : A -> S -> S)
  (dec : decoder A) :
  (forall a s, get (set a s) = a) -> tracks get dec (at_field get set dec).
Proof.
  intros Hgs j s. unfold at_field.
  destruct (dec j (get s)); now rewrite ?Hgs.
Qed.

Lemma at_field_preserves {S A B : Type} (get : S -> A) (set : A -> S -> S)
  (dec : decoder A) (other : S -> B) :
  (forall a s, other (set a s) = other s) ->
  preserves other (at_field get set dec).
Proof.
  intros Hgs j s. unfold at_field. destruct (dec j (get s)); auto.
Qed.

Lemma at_field_steady {S A : Type} (get : S -> A) (set : A -> S -> S)
  (dec : decoder A) : steady dec -> steady (at_field get set dec).
Proof.
  intros Hd j s. unfold at_field. destruct (Hd j (get s)) as (a & e & ->).
  eauto.
Qed.

Lemma nested_tracks {S T A : Type} (g1 : S -> T) (s1 : T -> S -> S)
  (g2 : T -> A) (s2 : A -> T -> T) (dec : decoder A) (get : S -> A) :
  (forall s, get s = g2 (g1 s)) ->
  (forall t s, g1 (s1 t s) = t) ->
  (forall a t, g2 (s2 a t) = a) ->
  tracks get dec (at_field g1 s1 (at_field g2 s2 dec)).
Proof.
  intros Hg H1 H2 j s. unfold at_field. rewrite Hg.
  destruct (dec j (g2 (g1 s))); now rewrite ?Hg, ?H1, ?H2.
Qed.

Lemma nested_preserves {S T A B : Type} (g1 : S -> T) (s1 : T -> S -> S)
  (g2 : T -> A) (s2 : A -> T -> T) (dec : decoder A) (other : S -> B) :
  (forall a s, other (s1 (s2 a (g1 s)) s) = other s) ->
  preserves other (at_field g1 s1 (at_field g2 s2 dec)).
Proof.
  intros Ho j s. unfold at_field. destruct (dec j (g2 (g1 s))); auto.
Qed.

(** ** The basic decoders never stop *)

Lemma decode_string_steady : steady decode_string.
Proof. intros j s. destruct j; simpl; eauto. Qed.

Lemma decode_bool_steady : steady decode_bool.
Proof. intros j s. destruct j; simpl; eauto. Qed.

Lemma decode_int_steady goType : steady (decode_int goType).
Proof.
  intros j s. destruct j as [| |[z|m e]| | |]; simpl; eauto.
  destruct (in_int64 z); eauto.
Qed.

Lemma decode_interface_steady : steady decode_interface.
Proof.
  intros j s. destruct j as [| |n| | |]; simpl; eauto.
  destruct (strconv_ParseFloat n); eauto.
Qed.

Lemma decode_slice_steady {T : Type} (elem : decoder T) (zero : T) goType :
  steady elem -> steady (decode_slice elem zero goType).
Proof.
  intros He.
  assert (Hl : forall l cur, exists vs e, decode_elems elem zero l cur = Cont vs e).
  { induction l as [|x l IH]; intros cur; simpl; eauto.
    destruct (He x (hd zero cur)) as (v & e1 & ->).
    destruct (IH (tl cur)) as (vs & e2 & ->). eauto. }
  intros j s. destruct j; simpl; eauto.
  destruct (Hl l (slice_elems s)) as (vs & e & ->). eauto.
Qed.

Lemma decode_map_steady {T : Type} (elem : decoder T) (zero : T) goType :
  steady elem -> steady (decode_map elem zero goType).
Proof.
  intros He.
  assert (Hl : forall o m, exists m' e, decode_entries elem zero o m = Cont m' e).
  { induction o as [|[k x] o IH]; intros m; simpl; eauto.
    destruct (He x zero) as (v & e1 & ->).
    destruct (IH (<[k := v]> m)) as (m' & e2 & ->). eauto. }
  intros j s. destruct j; simpl; eauto.
  destruct (Hl o (map_entries s)) as (m' & e & ->). eauto.
Qed.

Create HintDb steady.
#[local] Hint Resolve decode_string_steady decode_bool_steady decode_int_steady
  decode_interface_steady decode_slice_steady decode_map_steady
  at_field_steady : steady.

(** ** The anonymous struct of Image.UnmarshalJSON *)

(** Goals on a table of fields, one field at a time. *)
Ltac eval_wire :=
  repeat match goal with
    | |- context [String.eqb ?a ?b] =>
        let r := eval vm_compute in (String.eqb a b) in
        change (String.eqb a b) with r
    end.

Ltac record_eq :=
  intros;
  repeat match goal with
    | s : transient |- _ => destruct s
    | s : Image |- _ => destruct s
    end;
  reflexivity.

Ltac field_fact :=
  unfold fits, in_tmp; cbn [wire store]; eval_wire; cbv iota;
  first [ apply at_field_tracks; record_eq
        | apply nested_tracks; record_eq
        | apply at_field_preserves; record_eq
        | apply nested_preserves; record_eq ].

Ltac table_fact :=
  repeat (apply List.Forall_cons; [field_fact|]); apply List.Forall_nil.

Section Transient.
Context `{Platform}.

Lemma transient_fields_steady :
  Forall (fun f => steady (store f)) transient_fields.
Proof.
  repeat (apply List.Forall_cons;
          [unfold in_tmp; cbn [store]; auto 10 with steady|]).
  apply List.Forall_nil.
Qed.

Lemma decode_members_transient o p :
  exists p' e, decode_members transient_fields o p = Cont p' e.
Proof. apply decode_members_steady, transient_fields_steady. Qed.

Lemma fits_size :
  Forall (fits "size" tmp_SizeBytes decode_interface) transient_fields.
Proof. table_fact. Qed.

Lemma fits_created_at :
  Forall (fits "created_at" tmp_CreatedAt decode_string) transient_fields.
Proof. table_fact. Qed.

Lemma fits_updated_at :
  Forall (fits "updated_at" tmp_UpdatedAt decode_string) transient_fields.
Proof. table_fact. Qed.

End Transient.

(** ** Decoding into interface{} *)

Lemma valueInterface_finite :
  forall j, finite_numbers j = true -> snd (valueInterface j) = None.
Proof.
  fix IH 1. intros [| |n| |l|o]; simpl; trivial.
  - destruct (strconv_ParseFloat n); [trivial|discriminate].
  - induction l as [|x l IHl]; simpl; [trivial|].
    intros [Hx Hl]%andb_prop. specialize (IH x Hx). specialize (IHl Hl).
    destruct (valueInterface x) as [v e1]. simpl in *. subst e1.
    match goal with |- context [let '(_, _) := ?r in _] => destruct r end.
    exact IHl.
  - generalize (∅ : gmap string iface).
    induction o as [|[k x] o IHo]; simpl; [trivial|].
    intros m [Hx Ho]%andb_prop. specialize (IH x Hx).
    destruct (valueInterface x) as [v e1]. simpl in *. subst e1.
    specialize (IHo (<[k := v]> m) Ho).
    match goal with |- context [let '(_, _) := ?r in _] => destruct r end.
    exact IHo.
Qed.

Lemma decode_interface_value j cur v :
  decode_interface j cur = Cont v None -> valueInterface j = (v, None).
Proof.
  destruct j as [| |n| | |]; simpl;
    try (destruct (strconv_ParseFloat n); [|discriminate]);
    try match goal with
      | |- context [ISlice (fst ?r)] => destruct r
      | |- context [IMap (fst ?r)] => destruct r
      end; simpl; intros [= <-]; try subst; reflexivity.
Qed.

Lemma decode_interface_zero j :
  decode_interface j INil = Cont (iface_of j) (snd (valueInterface j)).
Proof.
  unfold iface_of. destruct j as [| |n| | |]; simpl; trivial.
  destruct (strconv_ParseFloat n); reflexivity.
Qed.

Lemma string_of_iface_of v s :
  string_of_iface (iface_of v) = Some s <-> v = JStr s.
Proof.
  unfold iface_of. destruct v as [| |n| | |]; simpl;
    try (destruct (strconv_ParseFloat n)); simpl;
    split; intros E; try discriminate; congruence.
Qed.

(** ** The custom properties *)

Lemma decode_entries_interface o :
  forall m, exists m' e,
    decode_entries decode_interface INil o m = Cont m' e /\
    (forall k, m' !! k =
               match obj_get k o with
               | Some v => Some (iface_of v)
               | None => m !! k
               end) /\
    (finite_numbers (JObj o) = true -> e = None).
Proof.
  induction o as [|[k x] o IH]; intros m.
  - exists m, None. simpl. auto.
  - cbn [decode_entries]. rewrite decode_interface_zero.
    destruct (IH (<[k := iface_of x]> m)) as (m' & e & -> & Hl & He).
    eexists _, _. split; [reflexivity|]. split.
    + intros k'. rewrite Hl. cbn [obj_get].
      destruct (obj_get k' o); [reflexivity|].
      destruct (String.eqb_spec k k') as [->|Hne].
      * now rewrite lookup_insert_eq.
      * now rewrite lookup_insert_ne.
    + intros Hf. change (finite_numbers x && finite_numbers (JObj o) = true) in Hf.
      apply andb_prop in Hf as [Hx Ho].
      rewrite (valueInterface_finite _ Hx). simpl. auto.
Qed.

Lemma custom_of_lookup o k :
  fst (custom_of o) !! k = iface_of <$> obj_get k o.
Proof.
  unfold custom_of.
  destruct (decode_entries_interface o ∅) as (m & e & -> & Hl & _).
  simpl. rewrite Hl. destruct (obj_get k o); [reflexivity|].
  apply lookup_empty.
Qed.

Lemma custom_of_finite o :
  finite_numbers (JObj o) = true -> snd (custom_of o) = None.
Proof.
  unfold custom_of.
  destruct (decode_entries_interface o ∅) as (m & e & -> & _ & He).
  exact He.
Qed.

Lemma lookup_delete_all {V : Type} (ks : list string) (m : gmap string V) k :
  fold_left (fun m k => delete k m) ks m !! k =
  if decide (k ∈ ks) then None else m !! k.
Proof.
  revert m. induction ks as [|k' ks IH]; intros m; cbn [fold_left].
  - destruct (decide (k ∈ [])) as [Hin|_]; [|reflexivity].
    now apply not_elem_of_nil in Hin.
  - rewrite IH.
    destruct (decide (k ∈ ks)) as [Hin|Hnin];
      destruct (decide (k ∈ k' :: ks)) as [Hin'|Hnin']; trivial.
    + exfalso. apply Hnin'. now apply list_elem_of_further.
    + apply elem_of_cons in Hin' as [->|?]; [|tauto].
      apply lookup_delete_eq.
    + apply lookup_delete_ne. intros ->. apply Hnin', list_elem_of_here.
Qed.

(** The properties are the string members of the payload whose key is not
    a known field. *)
Lemma custom_properties_lookup st o k v :
  custom_properties st o !! k = Some v <->
  (k ∉ (jsonTagKeys Image_type ++ jsonTagKeys st)%list) /\
  obj_get k o = Some (JStr v).
Proof.
  unfold custom_properties. rewrite lookup_omap, lookup_delete_all.
  destruct (decide (k ∈ (jsonTagKeys Image_type ++ jsonTagKeys st)%list))
    as [Hin|Hnin]; simpl.
  - split; [discriminate|tauto].
  - rewrite custom_of_lookup. destruct (obj_get k o) as [x|]; simpl.
    + rewrite string_of_iface_of. split.
      * intros ->; auto.
      * intros [_ [= ->]]; reflexivity.
    + split; [discriminate|intros [_ ?]; discriminate].
Qed.

Section CustomProperties.
Context `{Platform}.

Lemma unmarshalCustomProperties_object o st s :
  unmarshalCustomProperties (JObj o) st s =
  match snd (custom_of o) with
  | Some err => Returns (s, Some err)
  | None => Returns (set_Properties (Some (custom_properties st o)) s, None)
  end.
Proof.
  unfold unmarshalCustomProperties, custom_properties, custom_of, json_Unmarshal.
  cbn [decode_map map_entries].
  destruct (decode_entries_interface o ∅) as (m & e & -> & _).
  destruct e; reflexivity.
Qed.

End CustomProperties.

(** ** Image.UnmarshalJSON on an object *)

Section UnmarshalFacts.
Context `{Platform}.
Implicit Types (o : list (string * json)) (p : transient) (s : Image).

Lemma UnmarshalJSON_decode_error o s p err :
  decode_members transient_fields o zero_transient = Cont p (Some err) ->
  Image_UnmarshalJSON (JObj o) s = Returns (s, Some err).
Proof.
  intros Hd. unfold Image_UnmarshalJSON, json_Unmarshal, decode_pointer.
  cbn [decode_struct default]. now rewrite Hd.
Qed.

(** The type switch and what follows it. *)
Lemma UnmarshalJSON_decoded o s p :
  decodes_to o p ->
  Image_UnmarshalJSON (JObj o) s =
  match tmp_SizeBytes p with
  | INil => Returns (tmp p, None)
  | IFloat64 t =>
      let s1 := set_CreatedAt (fst (time_Parse_RFC3339 (tmp_CreatedAt p)))
                  (set_SizeBytes (int64_of_float64 t) (tmp p)) in
      match snd (time_Parse_RFC3339 (tmp_CreatedAt p)) with
      | Some err => Returns (s1, Some err)
      | None =>
          unmarshalCustomProperties (JObj o) transient_type
            (set_UpdatedAt (fst (time_Parse_RFC3339 (tmp_UpdatedAt p))) s1)
      end
  | t => Returns (tmp p, Some (UnknownSizeBytes (reflect_TypeOf t) t))
  end.
Proof.
  unfold decodes_to. intros Hd.
  unfold Image_UnmarshalJSON, json_Unmarshal, decode_pointer.
  cbn [decode_struct default]. rewrite Hd.
  destruct (tmp_SizeBytes p); try reflexivity.
  destruct (time_Parse_RFC3339 (tmp_CreatedAt p)) as [c [e|]]; [reflexivity|].
  cbn [fst snd]. now destruct (time_Parse_RFC3339 (tmp_UpdatedAt p)).
Qed.

(** An object is decoded cleanly, or with a type error: nothing stops the
    decoder of the anonymous struct and nothing panics. *)
Lemma UnmarshalJSON_cases o s :
  (exists p, decodes_to o p) \/
  (exists p err,
      decode_members transient_fields o zero_transient = Cont p (Some err) /\
      Image_UnmarshalJSON (JObj o) s = Returns (s, Some err)).
Proof.
  destruct (decode_members_transient o zero_transient) as (p & [err|] & Hd).
  - right. exists p, err. split; [exact Hd|].
    now apply UnmarshalJSON_decode_error with p.
  - left. now exists p.
Qed.

(** The three fields of the anonymous struct, from the payload. *)
Lemma decoded_size o p :
  decodes_to o p ->
  match image_member "size" o with
  | None => tmp_SizeBytes p = INil
  | Some v => valueInterface v = (tmp_SizeBytes p, None)
  end.
Proof.
  intros Hd.
  pose proof (decode_members_member tmp_SizeBytes _ "size" decode_interface
                fits_size o _ _ Hd) as Hm.
  unfold image_member. destruct (wire_member transient_fields "size" o).
  - destruct Hm as (a0 & Ha). now apply decode_interface_value in Ha.
  - exact Hm.
Qed.

Lemma decoded_string (w : string) (get : transient -> string) o p :
  Forall (fits w get decode_string) transient_fields ->
  decodes_to o p ->
  match image_member w o with
  | None => get p = get zero_transient
  | Some (JStr v) => get p = v
  | Some JNull => True
  | Some _ => False
  end.
Proof.
  intros Hf Hd.
  pose proof (decode_members_member get _ w decode_string Hf o _ _ Hd) as Hm.
  unfold image_member. destruct (wire_member transient_fields w o) as [v|].
  - destruct Hm as (a0 & Ha). destruct v; simpl in Ha; try discriminate;
      trivial. now inversion Ha.
  - exact Hm.
Qed.

Lemma decoded_created_at o p :
  decodes_to o p ->
  match image_member "created_at" o with
  | None => tmp_CreatedAt p = ""
  | Some (JStr v) => tmp_CreatedAt p = v
  | Some JNull => True
  | Some _ => False
  end.
Proof. apply (decoded_string "created_at" tmp_CreatedAt), fits_created_at. Qed.

Lemma decoded_updated_at o p :
  decodes_to o p ->
  match image_member "updated_at" o with
  | None => tmp_UpdatedAt p = ""
  | Some (JStr v) => tmp_UpdatedAt p = v
  | Some JNull => True
  | Some _ => False
  end.
Proof. apply (decoded_string "updated_at" tmp_UpdatedAt), fits_updated_at. Qed.

(** A size that is a number arrives as a float64. *)
Lemma decoded_size_number o p n :
  decodes_to o p -> image_member "size" o = Some (JNum n) ->
  exists f, strconv_ParseFloat n = Some f /\ tmp_SizeBytes p = IFloat64 f.
Proof.
  intros Hd Hm. pose proof (decoded_size o p Hd) as Hs. rewrite Hm in Hs.
  simpl in Hs. destruct (strconv_ParseFloat n) as [f|]; [|discriminate].
  exists f. split; [reflexivity|]. now inversion Hs.
Qed.

(** An absent or null size arrives as nil. *)
Lemma decoded_size_nil o p :
  decodes_to o p ->
  image_member "size" o = None \/ image_member "size" o = Some JNull ->
  tmp_SizeBytes p = INil.
Proof.
  intros Hd Hm. pose proof (decoded_size o p Hd) as Hs.
  destruct Hm as [Hm|Hm]; rewrite Hm in Hs; [exact Hs|].
  simpl in Hs. now inversion Hs.
Qed.

End UnmarshalFacts.

(** ** The timestamps and the properties of the embedded struct *)

Ltac preserved_table :=
  repeat (apply List.Forall_cons;
          [unfold in_tmp; cbn [store];
           first [ apply at_field_preserves; record_eq
                 | apply nested_preserves; record_eq ]|]);
  apply List.Forall_nil.

Section EmbeddedFacts.
Context `{Platform}.
Implicit Types (o : list (string * json)) (p : transient) (s : Image).

Lemma CreatedAt_untouched :
  Forall (fun f => preserves (fun p => CreatedAt (tmp p)) (store f))
    transient_fields.
Proof. preserved_table. Qed.

Lemma UpdatedAt_untouched :
  Forall (fun f => preserves (fun p => UpdatedAt (tmp p)) (store f))
    transient_fields.
Proof. preserved_table. Qed.


(** [json.Unmarshal] never writes the timestamps of the embedded struct. *)
Lemma decoded_timestamps o p :
  decodes_to o p ->
  CreatedAt (tmp p) = zero_Time /\ UpdatedAt (tmp p) = zero_Time.
Proof.
  unfold decodes_to. intros Hd. split.
  - pose proof (decode_members_preserves _ _ CreatedAt_untouched o
                  zero_transient) as Hp.
    rewrite Hd in Hp. exact Hp.
  - pose proof (decode_members_preserves _ _ UpdatedAt_untouched o
                  zero_transient) as Hp.
    rewrite Hd in Hp. exact Hp.
Qed.

Lemma fits_properties :
  Forall (fits "properties" (fun p => Properties (tmp p))
            (decode_map decode_string "" "map[string]string"))
    transient_fields.
Proof. table_fact. Qed.

End EmbeddedFacts.

(** A map of strings keeps the string members of the object it is decoded
    from. *)
Lemma decode_entries_string o :
  forall m, exists m' e,
    decode_entries decode_string "" o m = Cont m' e /\
    forall k, m' !! k =
              match obj_get k o with
              | Some (JStr v) => Some v
              | Some _ => Some ""
              | None => m !! k
              end.
Proof.
  induction o as [|[k x] o IH]; intros m.
  - exists m, None. simpl. auto.
  - cbn [decode_entries].
    destruct (decode_string_steady x "") as (a & e1 & Ha). rewrite Ha.
    destruct (IH (<[k := a]> m)) as (m' & e & -> & Hl).
    eexists _, _. split; [reflexivity|].
    intros k'. rewrite Hl. cbn [obj_get].
    destruct (obj_get k' o); [reflexivity|].
    destruct (String.eqb_spec k k') as [->|Hne].
    + rewrite lookup_insert_eq. destruct x; simpl in Ha; now inversion Ha.
    + now rewrite lookup_insert_ne.
Qed.

Lemma decode_map_string goType o m :
  (exists a0, decode_map decode_string "" goType (JObj o) a0 = Cont m None) ->
  exists m', m = Some m' /\
             forall k v, obj_get k o = Some (JStr v) -> m' !! k = Some v.
Proof.
  intros (a0 & Ha). cbn [decode_map] in Ha.
  destruct (decode_entries_string o (map_entries a0)) as (m' & e & Hd & Hl).
  rewrite Hd in Ha. inversion Ha; subst. exists m'. split; [reflexivity|].
  intros k v Hk. now rewrite Hl, Hk.
Qed.

(** ** The size *)


Lemma int64_of_float64_trunc `{Platform} f :
  in_int64 (float64_trunc f) = true -> int64_of_float64 f = float64_trunc f.
Proof. unfold int64_of_float64. now intros ->. Qed.

(** The truncation of a float64 is the truncation of its value. *)
Section Truncation.
Local Open Scope Q_scope.






End Truncation.

(** Roundings that are known: 0.1, 1e23, the largest float64, a tie, the
    smallest float64, and a literal beyond the range. *)
Lemma ParseFloat_examples :
  strconv_ParseFloat (NDec 1 (-1)) = Some (F64 7205759403792794 (-56)) /\
  option_map float64_trunc (strconv_ParseFloat (NDec 1 23)) =
  Some 99999999999999991611392 /\
  strconv_ParseFloat (NDec 17976931348623157 292) =
  Some (F64 9007199254740991 971) /\
  option_map float64_trunc (strconv_ParseFloat (NInt 9007199254740993)) =
  Some 9007199254740992 /\
  strconv_ParseFloat (NDec 5 (-324)) = Some (F64 1 (-1074)) /\
  strconv_ParseFloat (NDec 1 400) = None.
Proof. repeat split; vm_compute; reflexivity. Qed.

Lemma Qred_inject_Z z : Qred (inject_Z z) = inject_Z z.
Proof.
  unfold Qred, inject_Z.
  pose proof (Z.ggcd_correct_divisors z 1) as Hd.
  pose proof (Z.ggcd_gcd z 1) as Hg.
  destruct (Z.ggcd z 1) as [g [aa bb]]. cbn [fst snd] in *.
  rewrite Z.gcd_1_r in Hg. subst g. destruct Hd as [Ha Hb].
  rewrite Z.mul_1_l in Ha, Hb. subst aa bb. reflexivity.
Qed.

(** An integer of magnitude at most 2^53 is a float64, and comes back from
    it unchanged. *)
Lemma ParseFloat_integer z :
  Z.abs z <= 2 ^ 53 ->
  exists f, strconv_ParseFloat (NInt z) = Some f /\ float64_trunc f = z.
Proof.
  intros Hz.
  destruct (Z.eq_dec (Z.abs z) (2 ^ 53)) as [Hmax|Hnmax].
  { assert (Hcases : z = 2 ^ 53 \/ z = - 2 ^ 53) by lia.
    destruct Hcases as [-> | ->]; eexists; split; vm_compute; reflexivity. }
  unfold strconv_ParseFloat, number_value, round_float64.
  rewrite Qred_inject_Z. cbn [Qnum Qden inject_Z].
  destruct (Z.eqb_spec z 0) as [->|Hnz]; [eexists; split; reflexivity|].
  set (a := Z.abs z). assert (Ha : 0 < a) by (unfold a; lia).
  assert (Hsgn : Z.sgn z * a = z) by (unfold a; lia).
  assert (Hlt : a < 2 ^ 53) by (unfold a; lia).
  clearbody a. clear Hz Hnmax Hnz.
  pose proof (Z.log2_spec a Ha) as [Hlo _].
  pose proof (Z.log2_nonneg a) as Hl0.
  assert (Hl : Z.log2 a < 53) by (apply Z.log2_lt_pow2; assumption).
  set (k := 52 - Z.log2 a). assert (Hk : 0 <= k) by (unfold k; lia).
  assert (Hpk : 0 < 2 ^ k) by (apply Z.pow_pos_nonneg; lia).
  assert (Hbig : 2 ^ 52 <= a * 2 ^ k).
  { replace (2 ^ 52) with (2 ^ Z.log2 a * 2 ^ k).
    - apply Z.mul_le_mono_nonneg_r; lia.
    - rewrite <- Z.pow_add_r by lia. f_equal. unfold k. lia. }
  assert (Hscaled : exists D, scaled a 1 (- k) = (a * 2 ^ k, D) /\ D = 1).
  { unfold scaled. destruct (Z.leb_spec 0 (- k)) as [Hk0|Hk0].
    - assert (Hz0 : k = 0) by lia. rewrite Hz0. exists (1 * 2 ^ (- 0)).
      split; [|reflexivity]. f_equal. change (2 ^ 0) with 1. lia.
    - exists 1. split; [|reflexivity]. now rewrite Z.opp_involutive. }
  destruct Hscaled as (D & Hs & ->).
  unfold binade. change (Z.log2 1) with 0. rewrite Z.sub_0_r.
  replace (Z.log2 a - 52) with (- k) by (unfold k; lia).
  rewrite Hs, Z.div_1_r.
  destruct (Z.ltb_spec (a * 2 ^ k) (2 ^ 52)) as [Hc|_]; [lia|].
  rewrite Z.max_l by (unfold k; lia). rewrite Hs.
  unfold round_half_even. rewrite Z.div_1_r, Z.mod_1_r.
  change (1 <? 2 * 0) with false. change (1 =? 2 * 0) with false.
  cbn [orb andb].
  destruct (Z.ltb_spec 971 (- k)) as [Hc|_]; [lia|].
  destruct (Z.eqb_spec (- k) 971) as [Hc|_]; [lia|].
  cbn [orb andb]. eexists. split; [reflexivity|].
  unfold float64_trunc. cbn [expo mant].
  destruct (Z.leb_spec 0 (- k)) as [Hk0|Hk0].
  - assert (Hz0 : k = 0) by lia. rewrite Hz0. change (2 ^ 0) with 1.
    change (2 ^ (- 0)) with 1. lia.
  - rewrite Z.opp_involutive, Z.mul_assoc, Hsgn.
    apply Z.quot_mul. lia.
Qed.

Section SizeFacts.
Context `{Platform}.
Implicit Types (o : list (string * json)) (p : transient) (s : Image).






End SizeFacts.

(** ** Assignments to an Image *)

Lemma Properties_set_Properties a s : Properties (set_Properties a s) = a.
Proof. now destruct s. Qed.

Lemma SizeBytes_assigned a b c d s :
  SizeBytes (set_Properties a (set_UpdatedAt b (set_CreatedAt c
    (set_SizeBytes d s)))) = d.
Proof. now destruct s. Qed.

Lemma CreatedAt_assigned a b c d s :
  CreatedAt (set_Properties a (set_UpdatedAt b (set_CreatedAt c
    (set_SizeBytes d s)))) = c.
Proof. now destruct s. Qed.

Lemma UpdatedAt_assigned a b c d s :
  UpdatedAt (set_Properties a (set_UpdatedAt b (set_CreatedAt c
    (set_SizeBytes d s)))) = b.
Proof. now destruct s. Qed.

Lemma parse_RFC3339_empty : parse_RFC3339 "" = None.
Proof. reflexivity. Qed.

Lemma time_Parse_invalid v :
  parse_RFC3339 v = None ->
  time_Parse_RFC3339 v = (zero_Time, Some (ParseError RFC3339 v)).
Proof. unfold time_Parse_RFC3339. now intros ->. Qed.

Lemma time_Parse_valid v t :
  parse_RFC3339 v = Some t -> time_Parse_RFC3339 v = (t, None).
Proof. unfold time_Parse_RFC3339. now intros ->. Qed.

(** Goals on a concrete payload are settled by evaluation. *)
Ltac evaluate := vm_compute; reflexivity.

Section ImageClaims.
Context `{Platform}.
Implicit Types (o : list (string * json)) (p : transient) (s : Image).

(** A payload with a numeric size, a valid creation date and no number
    beyond float64 decodes, whatever its other members are. *)
Lemma UnmarshalJSON_succeeds o p n v t s :
  decodes_to o p ->
  image_member "size" o = Some (JNum n) ->
  image_member "created_at" o = Some (JStr v) ->
  parse_RFC3339 v = Some t ->
  finite_numbers (JObj o) = true ->
  exists f,
    strconv_ParseFloat n = Some f /\
    Image_UnmarshalJSON (JObj o) s =
    Returns
      (set_Properties (Some (custom_properties transient_type o))
         (set_UpdatedAt (fst (time_Parse_RFC3339 (tmp_UpdatedAt p)))
            (set_CreatedAt t (set_SizeBytes (int64_of_float64 f) (tmp p)))),
       None).
Proof.
  intros Hd Hsize Hc Hv Hfin.
  destruct (decoded_size_number o p n Hd Hsize) as (f & Hf & Hs).
  exists f. split; [exact Hf|].
  rewrite (UnmarshalJSON_decoded o s p Hd), Hs. cbv zeta.
  pose proof (decoded_created_at o p Hd) as Hcr. rewrite Hc in Hcr.
  rewrite Hcr, (time_Parse_valid v t Hv). cbn [fst snd].
  rewrite unmarshalCustomProperties_object.
  now rewrite (custom_of_finite o Hfin).
Qed.

(** C1, as amended.  For an image payload whose modeled attributes decode
    and whose size is a number: when created_at is absent, or present as a
    string that [time.Parse] rejects, decoding fails with the parse error of
    [time.Parse] for that string (the empty string when absent); when
    [time.Parse] accepts created_at and updated_at is absent, decoding
    succeeds and UpdatedAt is left at the zero time. *)
Theorem timestamps_of_a_sized_image o p n s :
  decodes_to o p ->
  image_member "size" o = Some (JNum n) ->
  (image_member "created_at" o = None ->
   exists img, Image_UnmarshalJSON (JObj o) s =
               Returns (img, Some (ParseError RFC3339 ""))) /\
  (forall v, image_member "created_at" o = Some (JStr v) ->
             parse_RFC3339 v = None ->
             exists img, Image_UnmarshalJSON (JObj o) s =
                         Returns (img, Some (ParseError RFC3339 v))) /\
  (forall v t, image_member "created_at" o = Some (JStr v) ->
               parse_RFC3339 v = Some t ->
               image_member "updated_at" o = None ->
               finite_numbers (JObj o) = true ->
               exists img, Image_UnmarshalJSON (JObj o) s = Returns (img, None) /\
                           CreatedAt img = t /\ UpdatedAt img = zero_Time).
Proof.
  intros Hd Hsize.
  destruct (decoded_size_number o p n Hd Hsize) as (f & Hf & Hs).
  pose proof (decoded_created_at o p Hd) as Hcr.
  assert (Hfail : forall v, tmp_CreatedAt p = v -> parse_RFC3339 v = None ->
            exists img, Image_UnmarshalJSON (JObj o) s =
                        Returns (img, Some (ParseError RFC3339 v))).
  { intros v Hv Hp. rewrite (UnmarshalJSON_decoded o s p Hd), Hs. cbv zeta.
    rewrite Hv, (time_Parse_invalid v Hp). cbn [fst snd]. eauto. }
  split; [|split].
  - intros Hc. rewrite Hc in Hcr. apply Hfail; [exact Hcr|reflexivity].
  - intros v Hc Hp. rewrite Hc in Hcr. now apply Hfail.
  - intros v t Hc Hp Hu Hfin.
    destruct (UnmarshalJSON_succeeds o p n v t s Hd Hsize Hc Hp Hfin)
      as (f' & Hf' & ->).
    eexists. split; [reflexivity|].
    pose proof (decoded_updated_at o p Hd) as Hup. rewrite Hu in Hup.
    rewrite Hup. rewrite CreatedAt_assigned, UpdatedAt_assigned.
    split; reflexivity.
Qed.

(** With a size that is not null, a successful decode has run the
    extraction of the custom properties. *)
Lemma sized_properties o s img size :
  image_member "size" o = Some size -> is_null size = false ->
  Image_UnmarshalJSON (JObj o) s = Returns (img, None) ->
  Properties img = Some (custom_properties transient_type o).
Proof.
  intros Hsize Hnn Hok.
  destruct (UnmarshalJSON_cases o s) as [(p & Hd)|(p & err & _ & Herr)];
    [|congruence].
  rewrite (UnmarshalJSON_decoded o s p Hd) in Hok.
  pose proof (decoded_size o p Hd) as Hs. rewrite Hsize in Hs.
  destruct size as [| |n| | |]; try discriminate;
    simpl in Hs; try (inversion Hs as [[Ht]]; rewrite <- Ht in Hok; discriminate).
  destruct (strconv_ParseFloat n) as [f|]; [|discriminate].
  inversion Hs as [[Ht]]. rewrite <- Ht in Hok. cbv zeta in Hok.
  destruct (snd (time_Parse_RFC3339 (tmp_CreatedAt p))); [discriminate|].
  rewrite unmarshalCustomProperties_object in Hok.
  destruct (snd (custom_of o)); [discriminate|].
  inversion Hok; subst. apply Properties_set_Properties.
Qed.

(** Without a size, the decode returns the embedded struct as
    [json.Unmarshal] filled it. *)
Lemma nil_size_returns o p s :
  decodes_to o p ->
  image_member "size" o = None \/ image_member "size" o = Some JNull ->
  Image_UnmarshalJSON (JObj o) s = Returns (tmp p, None).
Proof.
  intros Hd Hsize. pose proof (decoded_size_nil o p Hd Hsize) as Hs.
  now rewrite (UnmarshalJSON_decoded o s p Hd), Hs.
Qed.

Lemma decoded_properties o p :
  decodes_to o p ->
  match image_member "properties" o with
  | None => Properties (tmp p) = None
  | Some v =>
      exists a0, decode_map decode_string "" "map[string]string" v a0 =
                 Cont (Properties (tmp p)) None
  end.
Proof.
  intros Hd.
  exact (decode_members_member (fun p => Properties (tmp p)) _
           "properties" _ fits_properties o _ _ Hd).
Qed.

(** What the extraction of the custom properties does when it runs.  For
    every JSON object payload with a size that is not null successfully
    decoded into an Image, Properties holds exactly the top-level keys of
    the payload that are not in the KnownFieldSet and whose values are JSON
    strings; and the members that are left over and are not strings raise no
    error: with a numeric size, a valid created_at and no number beyond
    float64, the payload decodes. *)
Lemma properties_of_a_sized_image o s :
  (forall img size,
     image_member "size" o = Some size -> is_null size = false ->
     Image_UnmarshalJSON (JObj o) s = Returns (img, None) ->
     exists props,
       Properties img = Some props /\
       forall k v, props !! k = Some v <->
                   (k ∉ KnownFieldSet) /\ obj_get k o = Some (JStr v)) /\
  (forall p n v t,
     decodes_to o p ->
     image_member "size" o = Some (JNum n) ->
     image_member "created_at" o = Some (JStr v) ->
     parse_RFC3339 v = Some t ->
     finite_numbers (JObj o) = true ->
     exists img, Image_UnmarshalJSON (JObj o) s = Returns (img, None)).
Proof.
  split.
  - intros img size Hsize Hnn Hok.
    exists (custom_properties transient_type o). split.
    + now apply sized_properties with s size.
    + intros k v. apply custom_properties_lookup.
  - intros p n v t Hd Hsize Hc Hp Hfin.
    destruct (UnmarshalJSON_succeeds o p n v t s Hd Hsize Hc Hp Hfin)
      as (f & _ & ->). eauto.
Qed.

(** C3, as amended.  If the size is absent from an image payload, or null
    in it, and the modeled attributes decode, Image.UnmarshalJSON returns
    success right after copying the embedded struct: CreatedAt and UpdatedAt
    are left at the zero time whatever created_at and updated_at hold, and
    custom-property extraction is never run, so that Properties is nil when
    the payload has no properties member of its own, and otherwise holds
    what that member held. *)
Theorem early_return_without_size o p s :
  decodes_to o p ->
  image_member "size" o = None \/ image_member "size" o = Some JNull ->
  Image_UnmarshalJSON (JObj o) s = Returns (tmp p, None) /\
  CreatedAt (tmp p) = zero_Time /\
  UpdatedAt (tmp p) = zero_Time /\
  (image_member "properties" o = None -> Properties (tmp p) = None) /\
  (forall own, image_member "properties" o = Some (JObj own) ->
               exists props, Properties (tmp p) = Some props /\
                             forall k v, obj_get k own = Some (JStr v) ->
                                         props !! k = Some v).
Proof.
  intros Hd Hsize.
  destruct (decoded_timestamps o p Hd) as [Hc Hu].
  pose proof (decoded_properties o p Hd) as Hp.
  split; [|split; [exact Hc|split; [exact Hu|split]]].
  - now apply nil_size_returns.
  - intros Hn. now rewrite Hn in Hp.
  - intros own Ho. rewrite Ho in Hp. now apply decode_map_string in Hp.
Qed.

Lemma SizeBytes_converted c d s :
  SizeBytes (set_CreatedAt c (set_SizeBytes d s)) = d.
Proof. now destruct s. Qed.



(** C10, as amended.  For an image payload with a top-level member tmp of
    string value that decodes, the key tmp is not in Properties whenever the
    size is not null, or the payload has no properties member of its own:
    [jsonTagKeys] gives the name tmp, in lower case, for the embedded field
    of the anonymous struct, and that key is deleted with the wire names,
    although tmp is no wire name of Image. *)
Theorem tmp_is_no_custom_property o s img v :
  obj_get "tmp" o = Some (JStr v) ->
  Image_UnmarshalJSON (JObj o) s = Returns (img, None) ->
  (exists size, image_member "size" o = Some size /\ is_null size = false) \/
  image_member "properties" o = None ->
  In "tmp" (jsonTagKeys transient_type) /\
  ~ In "tmp" (jsonTagKeys Image_type) /\
  forall props, Properties img = Some props -> props !! "tmp" = None.
Proof.
  intros Htmp Hok Hcases.
  split; [vm_compute; tauto|].
  split; [vm_compute; intuition discriminate|].
  assert (Hknown : forall x, custom_properties transient_type o !! "tmp" <> Some x).
  { intros x [Hnot _]%custom_properties_lookup. apply Hnot.
    apply list_elem_of_In. vm_compute. tauto. }
  assert (Hsized : forall size,
             image_member "size" o = Some size -> is_null size = false ->
             forall props, Properties img = Some props -> props !! "tmp" = None).
  { intros size Hsize Hnn props.
    rewrite (sized_properties o s img size Hsize Hnn Hok). intros [= <-].
    destruct (custom_properties transient_type o !! "tmp") as [x|] eqn:E;
      [exfalso; now apply (Hknown x)|reflexivity]. }
  destruct Hcases as [(size & Hsize & Hnn)|Hnone]; [now apply Hsized with size|].
  destruct (image_member "size" o) as [size|] eqn:Hsize.
  - destruct (is_null size) eqn:Hnn; [|now apply Hsized with size].
    destruct size; try discriminate.
    destruct (UnmarshalJSON_cases o s) as [(p & Hd)|(p & err & _ & Hfail)];
      [|congruence].
    rewrite (nil_size_returns o p s Hd) in Hok by (right; exact Hsize).
    pose proof (decoded_properties o p Hd) as Hp. rewrite Hnone in Hp.
    inversion Hok; subst. intros props. rewrite Hp. discriminate.
  - destruct (UnmarshalJSON_cases o s) as [(p & Hd)|(p & err & _ & Hfail)];
      [|congruence].
    rewrite (nil_size_returns o p s Hd) in Hok by (left; exact Hsize).
    pose proof (decoded_properties o p Hd) as Hp. rewrite Hnone in Hp.
    inversion Hok; subst. intros props. rewrite Hp. discriminate.
Qed.

End ImageClaims.

Lemma timestamps_of_a_sized_image_witness :
  (exists img, unmarshalled (JObj undated_image) =
               Returns (img, Some (ParseError RFC3339 ""))) /\
  (exists img, unmarshalled (JObj misdated_image) =
               Returns (img, Some (ParseError RFC3339 "17 Aug 2016"))) /\
  (exists img, unmarshalled (JObj created_image) = Returns (img, None) /\
               CreatedAt img = the_time /\ UpdatedAt img = zero_Time).
Proof.
  split; [|split].
  - destruct (timestamps_of_a_sized_image (H := go_amd64) undated_image
                (decoded undated_image) (NInt 13167616) zero_Image)
      as (Habsent & _); [evaluate|evaluate|].
    apply Habsent. evaluate.
  - destruct (timestamps_of_a_sized_image (H := go_amd64) misdated_image
                (decoded misdated_image) (NInt 13167616) zero_Image)
      as (_ & Hinvalid & _); [evaluate|evaluate|].
    apply Hinvalid; evaluate.
  - destruct (timestamps_of_a_sized_image (H := go_amd64) created_image
                (decoded created_image) (NInt 13167616) zero_Image)
      as (_ & _ & Hvalid); [evaluate|evaluate|].
    apply (Hvalid a_time the_time); evaluate.
Defined.

(** C1 fails as stated: the creation date is absent from this payload and
    decoding does not succeed, it fails with the parse error of the empty
    string. *)
Lemma absent_created_at_is_an_error :
  image_member (H := go_amd64) "created_at" undated_image = None /\
  exists img, unmarshalled (JObj undated_image) =
              Returns (img, Some (ParseError RFC3339 "")).
Proof. split; [evaluate|]. eexists. evaluate. Qed.

Lemma properties_of_a_sized_image_witness :
  (exists props,
     (exists img, unmarshalled (JObj active_image) = Returns (img, None) /\
                  Properties img = Some props) /\
     forall k v, props !! k = Some v <->
                 (k ∉ KnownFieldSet) /\ obj_get k active_image = Some (JStr v)) /\
  (exists img, unmarshalled (JObj active_image) = Returns (img, None)).
Proof.
  destruct (properties_of_a_sized_image (H := go_amd64) active_image
              zero_Image) as [Hprops Hok].
  assert (Hrun : exists img,
             unmarshalled (JObj active_image) = Returns (img, None)).
  { apply (Hok (decoded active_image) (NInt 13167616) a_time the_time);
      evaluate. }
  split; [|exact Hrun].
  destruct Hrun as (img & Himg).
  destruct (Hprops img (JNum (NInt 13167616))) as (props & Hp & Hl);
    [evaluate|evaluate|exact Himg|].
  exists props. split; [|exact Hl].
  exists img. split; [exact Himg|exact Hp].
Defined.

(** C2, on a queued image.  The payload is successfully decoded into an
    Image, its member hw_disk_bus is a string under a key that is not in the
    KnownFieldSet, and Properties does not hold it: Properties is nil.  The
    size being null, the type switch of Image.UnmarshalJSON returns before
    the custom properties are extracted. *)
Lemma queued_image_loses_its_properties :
  (exists img, unmarshalled (JObj queued_image) = Returns (img, None) /\
               Properties img = None) /\
  ("hw_disk_bus" ∉ KnownFieldSet) /\
  obj_get "hw_disk_bus" queued_image = Some (JStr "scsi").
Proof.
  split; [|split].
  - eexists. split; evaluate.
  - rewrite list_elem_of_In. vm_compute. intuition discriminate.
  - evaluate.
Qed.

Lemma early_return_without_size_witness :
  unmarshalled (JObj queued_image) = Returns (tmp (decoded queued_image), None) /\
  CreatedAt (tmp (decoded queued_image)) = zero_Time /\
  UpdatedAt (tmp (decoded queued_image)) = zero_Time /\
  Properties (tmp (decoded queued_image)) = None.
Proof.
  destruct (early_return_without_size (H := go_amd64) queued_image
              (decoded queued_image) zero_Image)
    as (Hr & Hc & Hu & Hn & _).
  - evaluate.
  - right. evaluate.
  - split; [exact Hr|split; [exact Hc|split; [exact Hu|apply Hn; evaluate]]].
Defined.

(** C3 fails as stated: the size is absent from this payload and
    Properties is not left nil, it holds the properties member of the
    payload. *)
Lemma properties_member_survives_early_return :
  image_member (H := go_amd64) "size" labelled_image = None /\
  exists img,
    unmarshalled (JObj labelled_image) = Returns (img, None) /\
    Properties img = Some {[ "os_distro" := "cirros" ]}.
Proof.
  split; [evaluate|]. eexists. split; evaluate.
Qed.


Lemma tmp_is_no_custom_property_witness :
  obj_get "tmp" tmp_image = Some (JStr "scratch") /\
  unmarshalled (JObj tmp_image) =
  Returns (image_of (unmarshalled (JObj tmp_image)), None) /\
  forall props,
    Properties (image_of (unmarshalled (JObj tmp_image))) = Some props ->
    props !! "tmp" = None.
Proof.
  split; [evaluate|]. split; [evaluate|].
  apply (tmp_is_no_custom_property (H := go_amd64) tmp_image zero_Image
           (image_of (unmarshalled (JObj tmp_image))) "scratch").
  - evaluate.
  - evaluate.
  - left. exists (JNum (NInt 13167616)). split; evaluate.
Defined.

(** C10 fails as stated: this payload has a top-level member tmp of string
    value, it decodes, and the key tmp is in Properties, from the properties
    member of the payload. *)
Lemma tmp_from_the_properties_member :
  obj_get "tmp" nested_properties_image = Some (JStr "scratch") /\
  exists img props,
    unmarshalled (JObj nested_properties_image) = Returns (img, None) /\
    Properties img = Some props /\
    props !! "tmp" = Some "nested".
Proof.
  split; [evaluate|]. eexists. eexists.
  split; [evaluate|]. split; evaluate.
Qed.

(** ** The attributes of a decoded Image *)

Section AttributeFacts.
Context `{Platform}.
Implicit Types (o : list (string * json)) (p : transient) (s img : Image).

(** What a successful decode returns. *)
Lemma successful_decode o s img :
  Image_UnmarshalJSON (JObj o) s = Returns (img, None) ->
  exists p,
    decodes_to o p /\
    ((tmp_SizeBytes p = INil /\ img = tmp p) \/
     (exists f t,
        tmp_SizeBytes p = IFloat64 f /\
        parse_RFC3339 (tmp_CreatedAt p) = Some t /\
        img = set_Properties (Some (custom_properties transient_type o))
                (set_UpdatedAt (fst (time_Parse_RFC3339 (tmp_UpdatedAt p)))
                   (set_CreatedAt t
                      (set_SizeBytes (int64_of_float64 f) (tmp p)))))).
Proof.
  intros Hok.
  destruct (UnmarshalJSON_cases o s) as [(p & Hd)|(p & err & _ & Hfail)];
    [|congruence].
  exists p. split; [exact Hd|].
  rewrite (UnmarshalJSON_decoded o s p Hd) in Hok.
  destruct (tmp_SizeBytes p) as [| |f| | |]; try discriminate.
  - left. split; [reflexivity|]. now inversion Hok.
  - right. exists f. cbv zeta in Hok.
    destruct (parse_RFC3339 (tmp_CreatedAt p)) as [t|] eqn:Et.
    2: { rewrite (time_Parse_invalid _ Et) in Hok. discriminate. }
    rewrite (time_Parse_valid _ _ Et) in Hok.
    exists t. cbn [fst snd] in Hok.
    rewrite unmarshalCustomProperties_object in Hok.
    destruct (snd (custom_of o)); [discriminate|].
    split; [reflexivity|]. split; [reflexivity|]. now inversion Hok.
Qed.

(** An attribute that only [json.Unmarshal] writes is, after a successful
    decode, what its decoder made of the member of the payload for it. *)
Lemma attribute_decoded {A : Type} (w : string) (get : Image -> A)
  (dec : decoder A) :
  Forall (fits w (fun p => get (tmp p)) dec) transient_fields ->
  kept get ->
  forall o s img,
    Image_UnmarshalJSON (JObj o) s = Returns (img, None) ->
    match image_member w o with
    | None => get img = get zero_Image
    | Some v => exists a0, dec v a0 = Cont (get img) None
    end.
Proof.
  intros Hfits Hkept o s img Hok.
  destruct (successful_decode o s img Hok) as (p & Hd & Himg).
  assert (Hget : get img = get (tmp p)).
  { destruct Himg as [[_ ->]|(f & t & _ & _ & ->)]; [reflexivity|apply Hkept]. }
  rewrite Hget.
  exact (decode_members_member (fun p => get (tmp p)) _ w dec Hfits o _ _ Hd).
Qed.

Lemma string_attributes_fit :
  Forall (fun '(w, get) =>
            Forall (fits w (fun p => get (tmp p)) decode_string)
              transient_fields /\ kept get)
    string_attributes.
Proof.
  repeat (apply List.Forall_cons;
          [split; [table_fact|intros a b c d s; now destruct s]|]).
  apply List.Forall_nil.
Qed.

Lemma integer_attributes_fit :
  Forall (fun '(w, ty, get) =>
            Forall (fits w (fun p => get (tmp p)) (decode_int ty))
              transient_fields /\ kept get)
    integer_attributes.
Proof.
  repeat (apply List.Forall_cons;
          [split; [table_fact|intros a b c d s; now destruct s]|]).
  apply List.Forall_nil.
Qed.

Lemma list_attributes_fit :
  Forall (fun '(w, get) =>
            Forall (fits w (fun p => get (tmp p))
                      (decode_slice decode_string "" "[]string"))
              transient_fields /\ kept get)
    list_attributes.
Proof.
  repeat (apply List.Forall_cons;
          [split; [table_fact|intros a b c d s; now destruct s]|]).
  apply List.Forall_nil.
Qed.

Lemma fits_protected :
  Forall (fits "protected" (fun p => Protected (tmp p)) decode_bool)
    transient_fields.
Proof. table_fact. Qed.

Lemma fits_metadata :
  Forall (fits "metadata" (fun p => Metadata (tmp p))
            (decode_map decode_string "" "map[string]string"))
    transient_fields.
Proof. table_fact. Qed.

End AttributeFacts.

Lemma decode_elems_strings (l : list string) :
  forall cur, decode_elems decode_string "" (map JStr l) cur = Cont l None.
Proof.
  induction l as [|x l IH]; intros cur; simpl; [reflexivity|].
  now rewrite IH.
Qed.

Lemma decode_slice_strings goType (l : list string) a0 x :
  decode_slice decode_string "" goType (JArr (map JStr l)) a0 = Cont x None ->
  x = Some l.
Proof. cbn [decode_slice]. rewrite decode_elems_strings. now intros [= <-]. Qed.

Lemma decode_int_literal goType z a0 x :
  decode_int goType (JNum (NInt z)) a0 = Cont x None -> x = z.
Proof. simpl. destruct (in_int64 z); intros E; now inversion E. Qed.

Lemma valueInterface_nil v : valueInterface v = (INil, None) -> v = JNull.
Proof.
  destruct v as [| |n| | |]; simpl; trivial; try discriminate.
  destruct (strconv_ParseFloat n); discriminate.
Qed.

Section RoundTrip.
Context `{Platform}.
Implicit Types (o : list (string * json)) (p : transient) (s img : Image).

(** With a size that is not null, a successful decode went through the
    conversions of the size and of the dates. *)
Lemma sized_decode o s img size :
  image_member "size" o = Some size -> is_null size = false ->
  Image_UnmarshalJSON (JObj o) s = Returns (img, None) ->
  exists p f t,
    decodes_to o p /\
    tmp_SizeBytes p = IFloat64 f /\
    parse_RFC3339 (tmp_CreatedAt p) = Some t /\
    SizeBytes img = int64_of_float64 f /\
    CreatedAt img = t /\
    UpdatedAt img = fst (time_Parse_RFC3339 (tmp_UpdatedAt p)).
Proof.
  intros Hsize Hnn Hok.
  destruct (successful_decode o s img Hok)
    as (p & Hd & [[Hnil _]|(f & t & Hf & Ht & ->)]).
  - pose proof (decoded_size o p Hd) as Hs. rewrite Hsize, Hnil in Hs.
    apply valueInterface_nil in Hs. now subst size.
  - exists p, f, t. repeat split; trivial.
    + apply SizeBytes_assigned.
    + apply CreatedAt_assigned.
    + apply UpdatedAt_assigned.
Qed.

(** C8, as amended.  After a successful decode of an image payload, the
    modeled attributes that [json.Unmarshal] decodes by itself are exactly
    the values of the payload: the strings, the integers min_disk, min_ram
    and virtual_size, protected, the lists of strings tags and locations,
    and every string entry of metadata.  When the size is not null, the
    dates are kept too: CreatedAt is the time that created_at denotes, and
    so is UpdatedAt for a valid updated_at; and a size that is an integer of
    magnitude at most 2^53 is SizeBytes exactly. *)
Theorem modeled_attributes_are_kept o s img :
  Image_UnmarshalJSON (JObj o) s = Returns (img, None) ->
  (forall w get v, In (w, get) string_attributes ->
                   image_member w o = Some (JStr v) -> get img = v) /\
  (forall w ty get z, In (w, ty, get) integer_attributes ->
                      image_member w o = Some (JNum (NInt z)) -> get img = z) /\
  (forall b, image_member "protected" o = Some (JBool b) -> Protected img = b) /\
  (forall w get l, In (w, get) list_attributes ->
                   image_member w o = Some (JArr (map JStr l)) ->
                   get img = Some l) /\
  (forall own, image_member "metadata" o = Some (JObj own) ->
               exists m, Metadata img = Some m /\
                         forall k v, obj_get k own = Some (JStr v) ->
                                     m !! k = Some v) /\
  (forall z, image_member "size" o = Some (JNum (NInt z)) ->
             Z.abs z <= 2 ^ 53 -> SizeBytes img = z) /\
  (forall size v, image_member "size" o = Some size -> is_null size = false ->
                  image_member "created_at" o = Some (JStr v) ->
                  parse_RFC3339 v = Some (CreatedAt img)) /\
  (forall size v t, image_member "size" o = Some size -> is_null size = false ->
                    image_member "updated_at" o = Some (JStr v) ->
                    parse_RFC3339 v = Some t -> UpdatedAt img = t).
Proof.
  intros Hok. repeat apply conj.
  - intros w get v Hin Hm.
    pose proof string_attributes_fit as Hall. rewrite Forall_forall in Hall.
    destruct (Hall (w, get)) as [Hfits Hkept]; [now apply list_elem_of_In|].
    pose proof (attribute_decoded w get _ Hfits Hkept o s img Hok) as Ha.
    rewrite Hm in Ha. destruct Ha as (a0 & Ha). simpl in Ha. now inversion Ha.
  - intros w ty get z Hin Hm.
    pose proof integer_attributes_fit as Hall. rewrite Forall_forall in Hall.
    destruct (Hall (w, ty, get)) as [Hfits Hkept]; [now apply list_elem_of_In|].
    pose proof (attribute_decoded w get _ Hfits Hkept o s img Hok) as Ha.
    rewrite Hm in Ha. destruct Ha as (a0 & Ha).
    now apply decode_int_literal in Ha.
  - intros b Hm.
    assert (Hkept : kept Protected) by (intros a b' c d s'; now destruct s').
    pose proof (attribute_decoded _ Protected _ fits_protected Hkept o s img Hok)
      as Ha.
    rewrite Hm in Ha. destruct Ha as (a0 & Ha). simpl in Ha. now inversion Ha.
  - intros w get l Hin Hm.
    pose proof list_attributes_fit as Hall. rewrite Forall_forall in Hall.
    destruct (Hall (w, get)) as [Hfits Hkept]; [now apply list_elem_of_In|].
    pose proof (attribute_decoded w get _ Hfits Hkept o s img Hok) as Ha.
    rewrite Hm in Ha. destruct Ha as (a0 & Ha).
    now apply decode_slice_strings in Ha.
  - intros own Hm.
    assert (Hkept : kept Metadata) by (intros a b' c d s'; now destruct s').
    pose proof (attribute_decoded _ Metadata _ fits_metadata Hkept o s img Hok)
      as Ha.
    rewrite Hm in Ha. now apply decode_map_string in Ha.
  - intros z Hm Hz.
    destruct (sized_decode o s img _ Hm eq_refl Hok)
      as (p & f & t & Hd & Hf & _ & -> & _).
    destruct (decoded_size_number o p _ Hd Hm) as (f' & Hf' & Hs).
    assert (f' = f) by congruence. subst f'.
    destruct (ParseFloat_integer z Hz) as (f' & Hf'' & Ht).
    assert (f' = f) by congruence. subst f'.
    rewrite int64_of_float64_trunc; [exact Ht|].
    rewrite Ht. unfold in_int64, int64_min, int64_max.
    apply andb_true_intro; split; apply Z.leb_le; lia.
  - intros size v Hsize Hnn Hm.
    destruct (sized_decode o s img _ Hsize Hnn Hok)
      as (p & f & t & Hd & _ & Ht & _ & -> & _).
    pose proof (decoded_created_at o p Hd) as Hc. rewrite Hm in Hc.
    now rewrite <- Hc.
  - intros size v t Hsize Hnn Hm Hp.
    destruct (sized_decode o s img _ Hsize Hnn Hok)
      as (p & f & t' & Hd & _ & _ & _ & _ & ->).
    pose proof (decoded_updated_at o p Hd) as Hu. rewrite Hm in Hu.
    now rewrite Hu, (time_Parse_valid v t Hp).
Qed.

End RoundTrip.

Lemma modeled_attributes_are_kept_witness :
  unmarshalled (JObj active_image) =
  Returns (image_of (unmarshalled (JObj active_image)), None) /\
  Name (image_of (unmarshalled (JObj active_image))) =
  "cirros-0.3.2-x86_64-disk" /\
  MinDiskGigabytes (image_of (unmarshalled (JObj active_image))) = 0 /\
  Protected (image_of (unmarshalled (JObj active_image))) = false /\
  Tags (image_of (unmarshalled (JObj active_image))) = Some [] /\
  SizeBytes (image_of (unmarshalled (JObj active_image))) = 13167616 /\
  parse_RFC3339 a_time =
  Some (CreatedAt (image_of (unmarshalled (JObj active_image)))) /\
  UpdatedAt (image_of (unmarshalled (JObj active_image))) = the_time.
Proof.
  assert (Hok : unmarshalled (JObj active_image) =
                Returns (image_of (unmarshalled (JObj active_image)), None))
    by evaluate.
  destruct (modeled_attributes_are_kept (H := go_amd64) active_image
              zero_Image (image_of (unmarshalled (JObj active_image))) Hok)
    as (Hstr & Hint & Hbool & Hlist & _ & Hsize & Hcreated & Hupdated).
  split; [exact Hok|]. split; [|split; [|split; [|split; [|split; [|split]]]]].
  - apply (Hstr "name" Name); [|evaluate]. right. left. reflexivity.
  - apply (Hint "min_disk" "int" MinDiskGigabytes); [|evaluate].
    left. reflexivity.
  - apply Hbool. evaluate.
  - apply (Hlist "tags" Tags []); [|evaluate]. left. reflexivity.
  - apply Hsize; [evaluate|]. vm_compute. discriminate.
  - apply (Hcreated (JNum (NInt 13167616))); evaluate.
  - apply (Hupdated (JNum (NInt 13167616)) a_time); evaluate.
Defined.

(** C8 fails as stated.  Two valid payloads that differ by their size
    decode to the same Image: the size goes through a float64, which has
    no room for 2^53 + 1.  A size with a fraction loses it.  And the valid
    created_at of an image whose size is null is lost: CreatedAt is the
    zero time. *)
Lemma decoding_loses_modeled_values :
  (unmarshalled (JObj (sized_image (JNum (NInt (two_to_the_53 + 1))))) =
   unmarshalled (JObj (sized_image (JNum (NInt two_to_the_53)))) /\
   exists img,
     unmarshalled (JObj (sized_image (JNum (NInt (two_to_the_53 + 1))))) =
     Returns (img, None) /\
     SizeBytes img = two_to_the_53) /\
  (exists img,
     unmarshalled (JObj (sized_image (JNum (NDec 15 (-1))))) =
     Returns (img, None) /\
     SizeBytes img = 1) /\
  (image_member (H := go_amd64) "created_at" queued_image = Some (JStr a_time) /\
   parse_RFC3339 a_time = Some the_time /\
   the_time <> zero_Time /\
   exists img,
     unmarshalled (JObj queued_image) = Returns (img, None) /\
     CreatedAt img = zero_Time).
Proof.
  split; [|split].
  - split; [evaluate|]. eexists. split; evaluate.
  - eexists. split; evaluate.
  - split; [evaluate|]. split; [evaluate|]. split; [discriminate|].
    eexists. split; evaluate.
Qed.

(** ** Collections and pages *)

Lemma first_error_None_r (e : option error) : first_error e None = e.
Proof. now destruct e. Qed.




Section CollectionFacts.
Context {T : Type} (elem : decoder T) (zero : T).



(** The slice left when the decoder stops in an element: the elements
    before it, decoded, and the element itself as far as it got. *)
Lemma decode_elems_stops good decoded bad partial e rest :
  Forall2 (fun x v => elem x zero = Cont v None) good decoded ->
  elem bad zero = Stop partial e ->
  decode_elems elem zero (good ++ bad :: rest) [] =
  Stop (decoded ++ [partial])%list e.
Proof.
  intros Hgood Hbad. induction Hgood as [|x v good decoded Hx _ IH]; simpl.
  - now rewrite Hbad.
  - now rewrite Hx, IH.
Qed.

End CollectionFacts.

Section OneField.
Context `{Platform} {S : Type}.
Implicit Types (fs : list (field S)) (o : list (string * json)) (s : S).

Lemma decode_members_no_member fs o s :
  no_member fs o -> decode_members fs o s = Cont s None.
Proof.
  intros Hno. induction Hno as [|[k v] o Hk _ IH]; simpl; [reflexivity|].
  simpl in Hk. now rewrite Hk.
Qed.

(** An object with a single member for the struct. *)
Lemma decode_members_one fs pre k v post s f :
  no_member fs pre -> find_field fs k = Some f -> no_member fs post ->
  decode_members fs (pre ++ (k, v) :: post) s =
  match store f v s with
  | Cont s' e => Cont s' e
  | r => r
  end.
Proof.
  intros Hpre Hf Hpost. induction Hpre as [|[k' v'] pre Hk _ IH]; simpl.
  - rewrite Hf. destruct (store f v s) as [s' e| |]; trivial.
    now rewrite (decode_members_no_member fs post s' Hpost), first_error_None_r.
  - simpl in Hk. now rewrite Hk.
Qed.



Lemma binds_find_field fs w k :
  binds fs w k = true -> exists f, find_field fs k = Some f /\ wire f = w.
Proof.
  unfold binds. destruct (find_field fs k) as [f|]; [|discriminate].
  intros Hw%String.eqb_eq. eauto.
Qed.

End OneField.


(** ** Pages of images *)

Section ImagePageFacts.
Context `{Platform}.

(** [Image.UnmarshalJSON] panics on [null] only. *)
Lemma UnmarshalJSON_returns x s : x <> JNull -> Image_UnmarshalJSON x s <> Panics.
Proof.
  intros Hx. destruct x as [| | | | |o]; try congruence; try discriminate.
  destruct (UnmarshalJSON_cases o s) as [(p & Hd)|(p & err & _ & ->)];
    [|discriminate].
  rewrite (UnmarshalJSON_decoded o s p Hd).
  destruct (tmp_SizeBytes p); try discriminate. cbv zeta.
  destruct (snd (time_Parse_RFC3339 (tmp_CreatedAt p))); [discriminate|].
  rewrite unmarshalCustomProperties_object.
  destruct (snd (custom_of o)); discriminate.
Qed.


Lemma images_field k f :
  find_field images_body_fields k = Some f ->
  store f = at_field Images (fun a _ => mkImagesBody a)
              (decode_slice decode_Image zero_Image "[]images.Image").
Proof.
  intros Hf%find_field_elem. unfold images_body_fields in Hf.
  apply list_elem_of_singleton in Hf. now subst f.
Qed.

(** The images of a page whose body holds one collection. *)
Lemma ExtractImages_collection r pre k elems post :
  Err (PageResult (ImagePage_base r)) = None ->
  Body (PageResult (ImagePage_base r)) = JObj (pre ++ (k, JArr elems) :: post) ->
  no_member images_body_fields pre ->
  binds images_body_fields "images" k = true ->
  match decode_elems decode_Image zero_Image elems [] with
  | Cont vs e =>
      no_member images_body_fields post ->
      ExtractImages (Page_ImagePage r) = Returns (Some vs, e)
  | Stop vs e => ExtractImages (Page_ImagePage r) = Returns (Some vs, Some e)
  | Crash => ExtractImages (Page_ImagePage r) = Panics
  end.
Proof.
  intros Herr Hbody Hpre (f & Hf & _)%binds_find_field.
  pose proof (images_field k f Hf) as Hstore.
  unfold ExtractImages, ExtractInto, json_Unmarshal, decode_images_body.
  rewrite Herr, Hbody. cbn [decode_struct].
  destruct (decode_elems decode_Image zero_Image elems []) as [vs e|vs e|] eqn:Ed.
  - intros Hpost.
    rewrite (decode_members_one _ pre k (JArr elems) post _ f Hpre Hf Hpost).
    rewrite Hstore. unfold at_field. cbn [decode_slice Images slice_elems].
    now rewrite Ed.
  - assert (Hs : store f (JArr elems) (mkImagesBody None) =
                 Stop (mkImagesBody (Some vs)) e).
    { rewrite Hstore. unfold at_field. cbn [decode_slice Images slice_elems].
      now rewrite Ed. }
    clear -Hpre Hf Hs. induction Hpre as [|[k' v'] pre Hk _ IH]; simpl.
    + now rewrite Hf, Hs.
    + simpl in Hk. rewrite Hk. exact IH.
  - assert (Hs : store f (JArr elems) (mkImagesBody None) = Crash).
    { rewrite Hstore. unfold at_field. cbn [decode_slice Images slice_elems].
      now rewrite Ed. }
    clear -Hpre Hf Hs. induction Hpre as [|[k' v'] pre Hk _ IH]; simpl.
    + now rewrite Hf, Hs.
    + simpl in Hk. rewrite Hk. exact IH.
Qed.

Lemma fits_next :
  Forall (fits "next" Next decode_string) next_body_fields.
Proof.
  apply List.Forall_cons; [|apply List.Forall_nil].
  unfold fits. cbn [wire store]. eval_wire. cbv iota.
  now apply at_field_tracks.
Qed.

End ImagePageFacts.

(** ** Pages of volumes *)

Section VolumePageFacts.
Context `{Platform} `{Timestamps}.




Lemma next_href_none links url :
  Forall (fun l => Rel l <> "next") links -> next_href links url = url.
Proof.
  intros Hl. revert url. induction Hl as [|l links Hr _ IH]; intros url; simpl.
  - reflexivity.
  - rewrite IH. now apply String.eqb_neq in Hr as ->.
Qed.

End VolumePageFacts.

(** ** The claims on pages *)

Section PageClaims.
Context `{Platform} `{Timestamps}.

(** C5.  For every page, IsEmpty returns true exactly when the extractor
    of the collection (ExtractImages, ExtractVolumes), applied to the same
    page, yields a slice of length zero; it returns the error the extractor
    returns, and it panics exactly when the extractor does. *)
Theorem IsEmpty_is_the_extractor :
  (forall r b err,
     ImagePage_IsEmpty r = Returns (b, err) <->
     exists images, ExtractImages (Page_ImagePage r) = Returns (images, err) /\
                    b = Nat.eqb (len images) 0) /\
  (forall r, ImagePage_IsEmpty r = Panics <->
             ExtractImages (Page_ImagePage r) = Panics) /\
  (forall r b err,
     VolumePage_IsEmpty r = Returns (b, err) <->
     exists volumes, ExtractVolumes (Page_VolumePage r) = Returns (volumes, err) /\
                     b = Nat.eqb (len volumes) 0) /\
  (forall r, VolumePage_IsEmpty r = Panics <->
             ExtractVolumes (Page_VolumePage r) = Panics).
Proof.
  repeat apply conj.
  - intros r b err. unfold ImagePage_IsEmpty.
    destruct (ExtractImages (Page_ImagePage r)) as [[images e]|]; split.
    + intros [= <- <-]. eauto.
    + intros (images' & [= <- <-] & ->). reflexivity.
    + discriminate.
    + intros (images' & Hr & _). discriminate.
  - intros r. unfold ImagePage_IsEmpty.
    destruct (ExtractImages (Page_ImagePage r)) as [[images e]|];
      split; trivial; discriminate.
  - intros r b err. unfold VolumePage_IsEmpty.
    destruct (ExtractVolumes (Page_VolumePage r)) as [[volumes e]|]; split.
    + intros [= <- <-]. eauto.
    + intros (volumes' & [= <- <-] & ->). reflexivity.
    + discriminate.
    + intros (volumes' & Hr & _). discriminate.
  - intros r. unfold VolumePage_IsEmpty.
    destruct (ExtractVolumes (Page_VolumePage r)) as [[volumes e]|];
      split; trivial; discriminate.
Qed.


(** C7.  For every page whose pagination metadata decodes and carries no
    next reference, NextPageURL returns an empty locator and a nil error:
    for images, the next string being absent or empty; for volumes, there
    being no next relation among the links, or no volumes_links at all. *)
Theorem NextPageURL_of_the_last_page (resolve : string -> string -> string) :
  (forall r o s,
     Err (PageResult (ImagePage_base r)) = None ->
     Body (PageResult (ImagePage_base r)) = JObj o ->
     decode_members next_body_fields o (mkNextBody "") = Cont s None ->
     wire_member next_body_fields "next" o = None \/
     wire_member next_body_fields "next" o = Some (JStr "") ->
     ImagePage_NextPageURL resolve r = Returns ("", None)) /\
  (forall page s,
     ExtractInto (PageResult (VolumePage_base page)) decode_links_body
       (mkLinksBody None) = Returns (s, None) ->
     Forall (fun l => Rel l <> "next") (slice_elems (Links s)) ->
     VolumePage_NextPageURL page = Returns ("", None)) /\
  (forall page o,
     Err (PageResult (VolumePage_base page)) = None ->
     Body (PageResult (VolumePage_base page)) = JObj o ->
     no_member links_body_fields o ->
     VolumePage_NextPageURL page = Returns ("", None)).
Proof.
  repeat apply conj.
  - intros r o s Herr Hbody Hd Hnext.
    unfold ImagePage_NextPageURL, ExtractInto, json_Unmarshal, decode_next_body.
    rewrite Herr, Hbody. cbn [decode_struct]. rewrite Hd.
    pose proof (decode_members_member Next _ "next" decode_string fits_next
                  o _ _ Hd) as Hm.
    assert (Hs : Next s = "").
    { destruct Hnext as [Hn|Hn]; rewrite Hn in Hm; [exact Hm|].
      destruct Hm as (a0 & Ha). simpl in Ha. now inversion Ha. }
    now rewrite Hs.
  - intros page s Hex Hlinks. unfold VolumePage_NextPageURL. rewrite Hex.
    unfold ExtractNextURL. now rewrite next_href_none.
  - intros page o Herr Hbody Hno.
    unfold VolumePage_NextPageURL, ExtractInto, json_Unmarshal, decode_links_body.
    rewrite Herr, Hbody. cbn [decode_struct].
    now rewrite (decode_members_no_member _ o _ Hno).
Qed.

(** C9.  ExtractImages and ExtractVolumes assert the concrete type of their
    argument without a check: on every page value of another concrete type,
    and on the nil interface, the call panics instead of returning an error.
    A page of the asserted type is handled normally: the error of a failed
    request is returned, not raised. *)
Theorem extractors_assert_the_page_type :
  (forall r, is_ImagePage r = false -> ExtractImages r = Panics) /\
  (forall r, is_VolumePage r = false -> ExtractVolumes r = Panics) /\
  (forall r e, Err (PageResult (ImagePage_base r)) = Some e ->
               ExtractImages (Page_ImagePage r) = Returns (None, Some e)) /\
  (forall r e, Err (PageResult (VolumePage_base r)) = Some e ->
               ExtractVolumes (Page_VolumePage r) = Returns (None, Some e)).
Proof.
  repeat apply conj.
  - intros [| | |]; simpl; trivial; discriminate.
  - intros [| | |]; simpl; trivial; discriminate.
  - intros r e He. unfold ExtractImages, ExtractInto. now rewrite He.
  - intros r e He. unfold ExtractVolumes, ExtractInto. now rewrite He.
Qed.

End PageClaims.


Lemma IsEmpty_is_the_extractor_witness :
  images_empty (image_page no_images) = Returns (true, None) /\
  images_empty (image_page last_images) = Returns (false, None) /\
  exists err, volumes_empty (volume_page half_good_volumes) =
              Returns (false, Some err).
Proof.
  destruct (@IsEmpty_is_the_extractor go_amd64 text_timestamps)
    as (Himages & _ & Hvolumes & _).
  split; [|split].
  - apply Himages. eexists. split; evaluate.
  - apply Himages. eexists. split; evaluate.
  - eexists. apply Hvolumes. eexists. split; evaluate.
Defined.



Lemma NextPageURL_of_the_last_page_witness :
  next_images (image_page last_images) = Returns ("", None) /\
  next_volumes (volume_page last_volumes) = Returns ("", None) /\
  next_volumes (volume_page last_images) = Returns ("", None).
Proof.
  destruct (@NextPageURL_of_the_last_page go_amd64 join_url)
    as (Himages & Hlinks & Habsent).
  split; [|split].
  - apply (Himages (image_page last_images)
             [("images", JArr [JObj active_image])] (mkNextBody "")).
    + evaluate.
    + evaluate.
    + evaluate.
    + left. evaluate.
  - apply (Hlinks (volume_page last_volumes)
             (mkLinksBody
                (Some [mkLink "http://cinder:8776/v2/volumes?marker=v1"
                         "previous"]))).
    + evaluate.
    + apply List.Forall_cons; [discriminate|apply List.Forall_nil].
  - apply (Habsent (volume_page last_images)
             [("images", JArr [JObj active_image])]).
    + evaluate.
    + evaluate.
    + apply List.Forall_cons; [evaluate|apply List.Forall_nil].
Defined.

Lemma extractors_assert_the_page_type_witness :
  extracted_images (Page_VolumePage (volume_page last_volumes)) = Panics /\
  extracted_images nil_Page = Panics /\
  extracted_volumes (Page_ImagePage (image_page last_images)) = Panics /\
  extracted_images
    (Page_ImagePage
       (mkImagePage
          (mkLinkedPageBase (mkResult JNull (Some (OtherError "503")))
             "http://glance:9292/v2/images"))) =
  Returns (None, Some (OtherError "503")).
Proof.
  destruct (@extractors_assert_the_page_type go_amd64 text_timestamps)
    as (Himages & Hvolumes & Herr & _).
  split; [|split; [|split]].
  - apply Himages. reflexivity.
  - apply Himages. reflexivity.
  - apply Hvolumes. reflexivity.
  - apply Herr. reflexivity.
Defined.

(** * Further properties of the two files *)

(** ** Image.UnmarshalJSON: payloads that are no object, and the receiver *)

Section DecoderErrors.
Context `{Platform} {S : Type}.
Implicit Types (fs : list (field S)) (o : list (string * json)) (s : S).

(** A member whose field reports an error makes the whole object report
    one. *)
Lemma decode_members_reports fs o k v f :
  Forall (fun f => steady (store f)) fs ->
  In (k, v) o ->
  find_field fs k = Some f ->
  (forall s, exists s' e, store f v s = Cont s' (Some e)) ->
  forall s, exists s' e, decode_members fs o s = Cont s' (Some e).
Proof.
  intros Hfs Hin Hf Hbad.
  induction o as [|[k' v'] o IH]; intros s; [destruct Hin|].
  simpl. destruct Hin as [[= -> ->]|Hin].
  - rewrite Hf. destruct (Hbad s) as (s1 & e1 & ->).
    destruct (decode_members_steady fs Hfs o s1) as (s2 & e2 & ->).
    eauto.
  - destruct (find_field fs k') as [f'|] eqn:E; [|now apply IH].
    apply find_field_elem in E. rewrite Forall_forall in Hfs.
    destruct (Hfs _ E v' s) as (s1 & e1 & ->).
    destruct (IH Hin s1) as (s2 & e2 & ->).
    destruct e1; simpl; eauto.
Qed.

(** After a decode that went through the object, clean or not, the
    component of wire name [w] is what its decoder made of the member
    that decides it. *)
Lemma decode_members_component {A : Type} (get : S -> A) fs w
  (dec : decoder A) :
  Forall (fits w get dec) fs ->
  forall o s s' e,
    decode_members fs o s = Cont s' e ->
    match wire_member fs w o with
    | None => get s' = get s
    | Some v => exists a0 e', dec v a0 = Cont (get s') e'
    end.
Proof.
  intros Hfs o. induction o as [|[k v] o IH]; intros s s' e Hd; simpl in *.
  - now inversion Hd.
  - unfold binds. destruct (find_field fs k) as [f|] eqn:E.
    + apply find_field_elem in E. rewrite Forall_forall in Hfs.
      specialize (Hfs _ E). unfold fits in Hfs.
      destruct (store f v s) as [s1 e1| |] eqn:Es; try discriminate.
      destruct (decode_members fs o s1) as [s2 e2| |] eqn:Ed;
        try discriminate.
      inversion Hd; subst. specialize (IH _ _ _ Ed).
      destruct (wire_member fs w o); [exact IH|].
      destruct (String.eqb (wire f) w).
      * specialize (Hfs v s). rewrite Es in Hfs.
        exists (get s), e1. now rewrite IH.
      * specialize (Hfs v s). rewrite Es in Hfs. congruence.
    + specialize (IH _ _ _ Hd). now destruct (wire_member fs w o).
Qed.

End DecoderErrors.

Section ReceiverFacts.
Context `{Platform}.
Implicit Types (o : list (string * json)) (p : transient) (s img : Image).

(** X1.  Image.UnmarshalJSON panics on the payload [null], and on no other
    payload; a payload that is neither null nor an object (a number, a
    string, a bool, an array) returns the type error of [json.Unmarshal] for
    that kind of value and leaves the receiver as it was. *)
Theorem UnmarshalJSON_of_what_is_no_object b s :
  (Image_UnmarshalJSON b s = Panics <-> b = JNull) /\
  (is_object b = false -> b <> JNull ->
   Image_UnmarshalJSON b s = Returns (s, Some (type_error b transient_name))).
Proof.
  split.
  - split.
    + intros Hp. destruct b; trivial;
        exfalso; revert Hp; apply UnmarshalJSON_returns; discriminate.
    + intros ->. reflexivity.
  - intros Hobj Hnull. destruct b; try discriminate; try congruence;
      reflexivity.
Qed.

(** X2.  The outcome of Image.UnmarshalJSON does not depend on what the
    receiver held: two calls on the same payload panic together, or return
    the same error; they leave the same Image in the receiver, unless
    [json.Unmarshal] failed, in which case each receiver is left as it
    was. *)
Theorem UnmarshalJSON_forgets_the_receiver b s1 s2 :
  match Image_UnmarshalJSON b s1, Image_UnmarshalJSON b s2 with
  | Returns (i1, e1), Returns (i2, e2) =>
      e1 = e2 /\ (i1 = i2 \/ (i1 = s1 /\ i2 = s2 /\ e1 <> None))
  | Panics, Panics => True
  | _, _ => False
  end.
Proof.
  unfold Image_UnmarshalJSON.
  destruct (json_Unmarshal _ b None) as [[[p|] [e|]]|]; trivial;
    try (split; [reflexivity|right; repeat split; discriminate]).
  destruct (tmp_SizeBytes p); try (split; [reflexivity|left; reflexivity]).
  destruct (time_Parse_RFC3339 (tmp_CreatedAt p)) as [c [e|]];
    [split; [reflexivity|left; reflexivity]|].
  destruct (time_Parse_RFC3339 (tmp_UpdatedAt p)) as [u _].
  destruct (unmarshalCustomProperties b transient_type _) as [[i e]|]; trivial.
  split; [reflexivity|left; reflexivity].
Qed.


(** X4.  A member of the payload that is decoded into a string attribute
    and is neither a string nor null, or into an integer attribute and is
    not an integer literal that fits (a number with a fraction or an
    exponent is not), makes the decode fail; the receiver is left as it
    was. *)
Theorem a_mistyped_attribute_fails_the_decode o s k v :
  In (k, v) o ->
  (exists w get, In (w, get) string_attributes /\
                 binds transient_fields w k = true /\
                 not_a_string v = true) \/
  (exists w ty get, In (w, ty, get) integer_attributes /\
                    binds transient_fields w k = true /\
                    not_an_integer v = true) ->
  exists err, Image_UnmarshalJSON (JObj o) s = Returns (s, Some err).
Proof.
  intros Hin Hbad.
  enough (Hrep : exists f, find_field transient_fields k = Some f /\
                           forall p, exists p' e,
                             store f v p = Cont p' (Some e)).
  { destruct Hrep as (f & Hf & Hstore).
    destruct (decode_members_reports transient_fields o k v f
                transient_fields_steady Hin Hf Hstore zero_transient)
      as (p' & e & Hd).
    exists e. now apply UnmarshalJSON_decode_error with p'. }
  assert (Hstore : forall {A} w (get : transient -> A) dec,
             Forall (fits w get dec) transient_fields ->
             binds transient_fields w k = true ->
             (forall a, exists e, dec v a = Cont a (Some e)) ->
             exists f, find_field transient_fields k = Some f /\
                       forall p, exists p' e, store f v p = Cont p' (Some e)).
  { intros A w get dec Hfits (f & Hf & Hw)%binds_find_field Hdec.
    exists f. split; [exact Hf|]. intros p.
    pose proof transient_fields_steady as Hst.
    rewrite Forall_forall in Hfits, Hst.
    pose proof (find_field_elem _ _ _ Hf) as Hel.
    specialize (Hfits _ Hel). unfold fits in Hfits.
    apply String.eqb_eq in Hw. rewrite Hw in Hfits. specialize (Hfits v p).
    destruct (Hst _ Hel v p) as (p' & e & Hs). rewrite Hs in Hfits.
    destruct (Hdec (get p)) as (e' & He'). rewrite He' in Hfits.
    inversion Hfits; subst. eauto. }
  destruct Hbad as [(w & get & Hattr & Hb & Hv)|(w & ty & get & Hattr & Hb & Hv)].
  - pose proof string_attributes_fit as Hall. rewrite Forall_forall in Hall.
    destruct (Hall (w, get)) as [Hfits _]; [now apply list_elem_of_In|].
    apply (Hstore _ w (fun p => get (tmp p)) decode_string Hfits Hb).
    intros a. destruct v; try discriminate; simpl; eauto.
  - pose proof integer_attributes_fit as Hall. rewrite Forall_forall in Hall.
    destruct (Hall (w, ty, get)) as [Hfits _]; [now apply list_elem_of_In|].
    apply (Hstore _ w (fun p => get (tmp p)) (decode_int ty) Hfits Hb).
    intros a. destruct v as [| |[z|m e]| | |]; try discriminate; simpl; eauto.
    simpl in Hv. apply negb_true_iff in Hv. rewrite Hv. eauto.
Qed.

(** X5.  An updated_at that is present and that [time.Parse] rejects raises
    no error: the error of its parse is overwritten before it is looked at.
    With a numeric size and a created_at that [time.Parse] accepts the
    payload decodes, and UpdatedAt is the zero time. *)
Theorem a_malformed_updated_at_goes_unnoticed o p n c t u s :
  decodes_to o p ->
  image_member "size" o = Some (JNum n) ->
  image_member "created_at" o = Some (JStr c) ->
  parse_RFC3339 c = Some t ->
  image_member "updated_at" o = Some (JStr u) ->
  parse_RFC3339 u = None ->
  finite_numbers (JObj o) = true ->
  exists img, Image_UnmarshalJSON (JObj o) s = Returns (img, None) /\
              CreatedAt img = t /\ UpdatedAt img = zero_Time.
Proof.
  intros Hd Hsize Hc Ht Hu Hbad Hfin.
  destruct (UnmarshalJSON_succeeds o p n c t s Hd Hsize Hc Ht Hfin)
    as (f & _ & ->).
  eexists. split; [reflexivity|].
  pose proof (decoded_updated_at o p Hd) as Hup. rewrite Hu in Hup.
  rewrite Hup, (time_Parse_invalid u Hbad).
  now rewrite CreatedAt_assigned, UpdatedAt_assigned.
Qed.

(** X6.  When the decode fails on created_at, the receiver has already been
    overwritten: what it held is gone, it holds the attributes of the
    payload and its size, with both dates at the zero time. *)
Theorem a_failed_date_leaves_the_payload_in_the_receiver o p n s :
  decodes_to o p ->
  image_member "size" o = Some (JNum n) ->
  parse_RFC3339 (tmp_CreatedAt p) = None ->
  exists img f,
    Image_UnmarshalJSON (JObj o) s =
    Returns (img, Some (ParseError RFC3339 (tmp_CreatedAt p))) /\
    strconv_ParseFloat n = Some f /\
    SizeBytes img = int64_of_float64 f /\
    CreatedAt img = zero_Time /\ UpdatedAt img = zero_Time /\
    (forall w get v, In (w, get) string_attributes ->
                     image_member w o = Some (JStr v) -> get img = v) /\
    (forall w get, In (w, get) string_attributes ->
                   image_member w o = None -> get img = "").
Proof.
  intros Hd Hsize Hbad.
  destruct (decoded_size_number o p n Hd Hsize) as (f & Hf & Hs).
  destruct (decoded_timestamps o p Hd) as [Hc Hu].
  exists (set_CreatedAt zero_Time (set_SizeBytes (int64_of_float64 f) (tmp p))), f.
  split.
  { rewrite (UnmarshalJSON_decoded o s p Hd), Hs. cbv zeta.
    now rewrite (time_Parse_invalid _ Hbad). }
  split; [exact Hf|]. split; [apply SizeBytes_converted|].
  split; [now destruct (tmp p)|]. split; [destruct (tmp p); exact Hu|].
  assert (Hattr : forall w get, In (w, get) string_attributes ->
             get (set_CreatedAt zero_Time
                    (set_SizeBytes (int64_of_float64 f) (tmp p))) =
             get (tmp p) /\
             Forall (fits w (fun p => get (tmp p)) decode_string)
               transient_fields).
  { intros w get Hin.
    pose proof string_attributes_fit as Hall. rewrite Forall_forall in Hall.
    destruct (Hall (w, get)) as [Hfits _]; [now apply list_elem_of_In|].
    split; [|exact Hfits]. clear -Hin.
    repeat (destruct Hin as [[= <- <-]|Hin]; [now destruct (tmp p)|]).
    destruct Hin. }
  split.
  - intros w get v Hin Hm. destruct (Hattr w get Hin) as [-> Hfits].
    pose proof (decode_members_member (fun p => get (tmp p)) _ w
                  decode_string Hfits o _ _ Hd) as Ha.
    fold (image_member w o) in Ha. rewrite Hm in Ha.
    destruct Ha as (a0 & Ha). simpl in Ha. now inversion Ha.
  - intros w get Hin Hm. destruct (Hattr w get Hin) as [-> Hfits].
    pose proof (decode_members_member (fun p => get (tmp p)) _ w
                  decode_string Hfits o _ _ Hd) as Ha.
    fold (image_member w o) in Ha. rewrite Hm in Ha. rewrite Ha. clear -Hin.
    repeat (destruct Hin as [[= <- <-]|Hin]; [reflexivity|]). destruct Hin.
Qed.

End ReceiverFacts.

Lemma UnmarshalJSON_of_what_is_no_object_witness :
  Image_UnmarshalJSON (H := go_amd64) (JArr [JObj active_image]) used_Image =
  Returns (used_Image,
           Some (type_error (JArr [JObj active_image]) transient_name)).
Proof.
  apply (UnmarshalJSON_of_what_is_no_object (H := go_amd64));
    [reflexivity|discriminate].
Defined.


Lemma a_mistyped_attribute_fails_the_decode_witness :
  exists err,
    Image_UnmarshalJSON (H := go_amd64) (JObj numbered_image) used_Image =
    Returns (used_Image, Some err).
Proof.
  apply (a_mistyped_attribute_fails_the_decode (H := go_amd64) numbered_image
           used_Image "id" (JNum (NInt 7))).
  - left. reflexivity.
  - left. exists "id", ID. split; [left; reflexivity|]. split; evaluate.
Defined.

Lemma a_malformed_updated_at_goes_unnoticed_witness :
  exists img,
    unmarshalled (JObj misupdated_image) = Returns (img, None) /\
    CreatedAt img = the_time /\ UpdatedAt img = zero_Time.
Proof.
  apply (a_malformed_updated_at_goes_unnoticed (H := go_amd64)
           misupdated_image (decoded misupdated_image) (NInt 13167616)
           a_time the_time "yesterday" zero_Image); evaluate.
Defined.

Lemma a_failed_date_leaves_the_payload_in_the_receiver_witness :
  exists img f,
    Image_UnmarshalJSON (H := go_amd64) (JObj misdated_image) used_Image =
    Returns (img, Some (ParseError RFC3339 "17 Aug 2016")) /\
    strconv_ParseFloat (NInt 13167616) = Some f /\
    SizeBytes img = int64_of_float64 (H := go_amd64) f /\
    CreatedAt img = zero_Time /\ UpdatedAt img = zero_Time /\
    ID img = "da3b75d9-3f4a-40e7-8a2c-bfab23927dea" /\ Name img = "".
Proof.
  assert (Hdate : tmp_CreatedAt (decoded misdated_image) = "17 Aug 2016")
    by evaluate.
  assert (Hd : decodes_to (H := go_amd64) misdated_image
                 (decoded misdated_image)) by evaluate.
  assert (Hsize : image_member (H := go_amd64) "size" misdated_image =
                  Some (JNum (NInt 13167616))) by evaluate.
  assert (Hbad : parse_RFC3339 (tmp_CreatedAt (decoded misdated_image)) = None)
    by evaluate.
  destruct (a_failed_date_leaves_the_payload_in_the_receiver (H := go_amd64)
              misdated_image (decoded misdated_image) (NInt 13167616)
              used_Image Hd Hsize Hbad)
    as (img & f & Hr & Hf & Hs & Hc & Hu & Hset & Hzero).
  rewrite Hdate in Hr. exists img, f.
  split; [exact Hr|]. split; [exact Hf|]. split; [exact Hs|].
  split; [exact Hc|]. split; [exact Hu|]. split.
  - apply (Hset "id" ID); [left; reflexivity|evaluate].
  - apply (Hzero "name" Name); [right; left; reflexivity|evaluate].
Defined.

(** ** The custom properties *)

Section CustomProperties.
Context `{Platform}.
Implicit Types (o : list (string * json)) (s img : Image).

Lemma wire_member_last {S : Type} (fs : list (field S)) w o1 k v o2 :
  binds fs w k = true -> wire_member fs w o2 = None ->
  wire_member fs w (o1 ++ (k, v) :: o2) = Some v.
Proof.
  intros Hb Ho2. induction o1 as [|[k' v'] o1 IH]; simpl.
  - now rewrite Ho2, Hb.
  - now rewrite IH.
Qed.

Lemma obj_get_last o1 k v o2 :
  obj_get k o2 = None -> obj_get k (o1 ++ (k, v) :: o2) = Some v.
Proof.
  intros Ho2. induction o1 as [|[k' v'] o1 IH]; simpl.
  - now rewrite Ho2, String.eqb_refl.
  - now rewrite IH.
Qed.

(** Membership in a list of keys, by computation. *)
Lemma key_listed (k : string) (l : list string) :
  existsb (String.eqb k) l = true -> k ∈ l.
Proof.
  intros (x & Hx & ->%String.eqb_eq)%existsb_exists.
  now apply list_elem_of_In.
Qed.

Lemma key_not_listed (k : string) (l : list string) :
  existsb (String.eqb k) l = false -> k ∉ l.
Proof.
  intros Hl Hin%list_elem_of_In.
  assert (Ht : existsb (String.eqb k) l = true); [|congruence].
  apply existsb_exists. exists k. split; [exact Hin|apply String.eqb_refl].
Qed.

(** The wire names of the anonymous struct are all filtered out of the
    custom properties. *)
Lemma wire_names_are_known :
  Forall (fun f => wire f ∈ KnownFieldSet) transient_fields.
Proof.
  repeat (apply List.Forall_cons; [apply key_listed; vm_compute; reflexivity|]).
  apply List.Forall_nil.
Qed.

Lemma custom_properties_known o k v :
  custom_properties transient_type o !! k = Some v <->
  (k ∉ KnownFieldSet) /\ obj_get k o = Some (JStr v).
Proof. apply custom_properties_lookup. Qed.

(** X7.  unmarshalCustomProperties returns on every payload.  When it
    returns an error the Image is as it was.  When it returns none, only
    Properties has changed: it is a fresh map, whatever it held before, with
    exactly the members of the payload that are strings and whose key is no
    JSON tag key of Image or of the struct passed; for the payload [null]
    that is the empty map. *)
Theorem unmarshalCustomProperties_sets_only_Properties b st s :
  exists s' e,
    unmarshalCustomProperties b st s = Returns (s', e) /\
    match e with
    | Some _ => s' = s
    | None =>
        exists props,
          s' = set_Properties (Some props) s /\
          forall k v,
            props !! k = Some v <->
            (k ∉ (jsonTagKeys Image_type ++ jsonTagKeys st)%list) /\
            exists o, b = JObj o /\ obj_get k o = Some (JStr v)
    end.
Proof.
  destruct b as [| | | | |o].
  - eexists _, None. split; [reflexivity|]. eexists. split; [reflexivity|].
    intros k v. rewrite lookup_omap, lookup_delete_all. split.
    + destruct (decide _); simpl; [discriminate|].
      rewrite lookup_empty. discriminate.
    + intros (_ & o & Ho & _). discriminate.
  - eexists _, (Some _). split; reflexivity.
  - eexists _, (Some _). split; reflexivity.
  - eexists _, (Some _). split; reflexivity.
  - eexists _, (Some _). split; reflexivity.
  - rewrite unmarshalCustomProperties_object.
    destruct (snd (custom_of o)) as [err|].
    + eexists _, (Some _). split; reflexivity.
    + eexists _, None. split; [reflexivity|].
      exists (custom_properties st o). split; [reflexivity|].
      intros k v. rewrite custom_properties_lookup. split.
      * intros [Hk Hv]. split; [exact Hk|]. now exists o.
      * intros (Hk & o' & [= <-] & Hv). now split.
Qed.

(** X8.  When the custom properties are extracted (the size is not null),
    no member whose key is written exactly as the wire name of a modeled
    attribute is copied to Properties.  A member whose key matches the wire
    name of a string attribute only up to case is read twice: it sets the
    attribute, and it is kept as a custom property under its own key. *)
Theorem a_key_matched_up_to_case_is_read_twice o s img size :
  image_member "size" o = Some size -> is_null size = false ->
  Image_UnmarshalJSON (JObj o) s = Returns (img, None) ->
  exists props,
    Properties img = Some props /\
    (forall f, f ∈ transient_fields -> props !! wire f = None) /\
    (forall w get o1 k v o2,
       In (w, get) string_attributes ->
       k ∉ KnownFieldSet ->
       binds transient_fields w k = true ->
       o = (o1 ++ (k, JStr v) :: o2)%list ->
       image_member w o2 = None -> obj_get k o2 = None ->
       get img = v /\ props !! k = Some v).
Proof.
  intros Hsize Hnn Hok. exists (custom_properties transient_type o).
  split; [now apply sized_properties with s size|]. split.
  - intros f Hf. pose proof wire_names_are_known as Hall.
    rewrite Forall_forall in Hall. specialize (Hall f Hf).
    destruct (custom_properties transient_type o !! wire f) as [x|] eqn:E;
      [|reflexivity].
    apply custom_properties_known in E as [Hnot _]. exfalso. apply Hnot.
    exact Hall.
  - intros w get o1 k v o2 Hin Hk Hb -> Hw Ho2. split.
    + pose proof string_attributes_fit as Hall. rewrite Forall_forall in Hall.
      destruct (Hall (w, get)) as [Hfits Hkept]; [now apply list_elem_of_In|].
      pose proof (attribute_decoded w get _ Hfits Hkept _ s img Hok) as Ha.
      unfold image_member in Ha, Hw.
      rewrite (wire_member_last _ w o1 k (JStr v) o2 Hb Hw) in Ha.
      destruct Ha as (a0 & Ha). simpl in Ha. now inversion Ha.
    + apply custom_properties_known. split; [exact Hk|].
      now apply obj_get_last.
Qed.

End CustomProperties.

Lemma a_key_matched_up_to_case_is_read_twice_witness :
  exists props,
    Properties (image_of (unmarshalled (JObj capital_image))) = Some props /\
    props !! "name" = None /\
    Name (image_of (unmarshalled (JObj capital_image))) = "cirros" /\
    props !! "Name" = Some "cirros".
Proof.
  assert (Hsize : image_member (H := go_amd64) "size" capital_image =
                  Some (JNum (NInt 13167616))) by evaluate.
  assert (Hok : unmarshalled (JObj capital_image) =
                Returns (image_of (unmarshalled (JObj capital_image)), None))
    by evaluate.
  destruct (a_key_matched_up_to_case_is_read_twice (H := go_amd64)
              capital_image zero_Image
              (image_of (unmarshalled (JObj capital_image)))
              (JNum (NInt 13167616)) Hsize eq_refl Hok)
    as (props & Hprops & Hexact & Hfolded).
  exists props. split; [exact Hprops|]. split.
  - apply (Hexact (in_tmp (H := go_amd64) "name" Name set_Name decode_string)).
    apply list_elem_of_In. right. left. reflexivity.
  - apply (Hfolded "name" Name
             [("id", JStr "da3b75d9-3f4a-40e7-8a2c-bfab23927dea")]
             "Name" "cirros"
             [("size", JNum (NInt 13167616)); ("created_at", JStr a_time);
              ("updated_at", JStr a_time)]).
    + right. left. reflexivity.
    + apply key_not_listed. evaluate.
    + evaluate.
    + reflexivity.
    + evaluate.
    + evaluate.
Defined.

(** ** Results and pages of images *)

Section CollectionOutcome.
Context {T : Type} (elem : decoder T) (zero : T).

Lemma decode_elems_clean l vs :
  Forall2 (fun x v => elem x zero = Cont v None) l vs ->
  decode_elems elem zero l [] = Cont vs None.
Proof.
  intros Hl. induction Hl as [|x v l vs Hx _ IH]; simpl; [reflexivity|].
  now rewrite Hx, IH.
Qed.



End CollectionOutcome.

Section NullCollection.
Context `{Platform} {S : Type}.


End NullCollection.

Section ImageResults.
Context `{Platform}.
Variable resolve : string -> string -> string.


(** X10.  When every element of the images array decodes, ExtractImages
    returns the images of all the elements, in the order of the array, and
    no error; IsEmpty then tells whether the array is empty; and each image
    is the one that Extract returns for the element as a body. *)
Theorem a_page_of_good_images_is_extracted_in_order r pre k elems post images :
  Err (PageResult (ImagePage_base r)) = None ->
  Body (PageResult (ImagePage_base r)) = JObj (pre ++ (k, JArr elems) :: post) ->
  no_member images_body_fields pre ->
  binds images_body_fields "images" k = true ->
  no_member images_body_fields post ->
  Forall2 (fun x img => Image_UnmarshalJSON x zero_Image = Returns (img, None))
    elems images ->
  ExtractImages (Page_ImagePage r) = Returns (Some images, None) /\
  ImagePage_IsEmpty r = Returns (Nat.eqb (length elems) 0, None) /\
  Forall2 (fun x img => images_Extract (mkResult x None) =
                        Returns (Some img, None)) elems images.
Proof.
  intros Herr Hbody Hpre Hb Hpost Hall.
  assert (Hex : ExtractImages (Page_ImagePage r) = Returns (Some images, None)).
  { pose proof (ExtractImages_collection r pre k elems post Herr Hbody Hpre Hb)
      as Hex.
    rewrite (decode_elems_clean decode_Image zero_Image elems images) in Hex;
      [now apply Hex|].
    apply (Forall2_impl _ _ _ _ Hall). intros x img Hx.
    unfold decode_Image, by_UnmarshalJSON. now rewrite Hx. }
  split; [exact Hex|]. split.
  - unfold ImagePage_IsEmpty. rewrite Hex. unfold len. simpl.
    now rewrite (Forall2_length _ _ _ Hall).
  - apply (Forall2_impl _ _ _ _ Hall). intros x img Hx.
    unfold images_Extract, ExtractInto, json_Unmarshal, decode_pointer,
      decode_Image, by_UnmarshalJSON. cbn [Err Body].
    change (default zero_Image None) with zero_Image.
    destruct x; try (now rewrite Hx). discriminate Hx.
Qed.



Lemma next_body_fields_steady :
  Forall (fun f => steady (store f)) next_body_fields.
Proof.
  apply List.Forall_cons; [cbn [store]; auto with steady|apply List.Forall_nil].
Qed.

(** X12.  NextPageURL of a page of images returns the empty string and the
    error, and resolves nothing, when the page carries a transport error,
    when the body is neither an object nor null, and when a member of the
    body decoded into next is neither a string nor null. *)
Theorem NextPageURL_returns_the_error_of_the_decode :
  (forall r e,
     Err (PageResult (ImagePage_base r)) = Some e ->
     ImagePage_NextPageURL resolve r = Returns ("", Some e)) /\
  (forall r,
     Err (PageResult (ImagePage_base r)) = None ->
     is_object (Body (PageResult (ImagePage_base r))) = false ->
     Body (PageResult (ImagePage_base r)) <> JNull ->
     exists err, ImagePage_NextPageURL resolve r = Returns ("", Some err)) /\
  (forall r o k v,
     Err (PageResult (ImagePage_base r)) = None ->
     Body (PageResult (ImagePage_base r)) = JObj o ->
     In (k, v) o ->
     binds next_body_fields "next" k = true ->
     not_a_string v = true ->
     exists err, ImagePage_NextPageURL resolve r = Returns ("", Some err)).
Proof.
  unfold ImagePage_NextPageURL, ExtractInto. repeat apply conj.
  - now intros r e ->.
  - intros r -> Hobj Hnn.
    destruct (Body (PageResult (ImagePage_base r))); try discriminate;
      try congruence; simpl; eauto.
  - intros r o k v -> -> Hin (f & Hf & Hw)%binds_find_field Hv.
    unfold json_Unmarshal, decode_next_body. cbn [decode_struct].
    destruct (decode_members_reports next_body_fields o k v f
                next_body_fields_steady Hin Hf) with (s := mkNextBody "")
      as (s' & e & ->); [|eauto].
    intros s. pose proof (find_field_elem _ _ _ Hf) as Hel.
    apply list_elem_of_singleton in Hel. subst f. cbn [store]. unfold at_field.
    destruct v; try discriminate; simpl; eauto.
Qed.

End ImageResults.


Lemma a_page_of_good_images_is_extracted_in_order_witness :
  extracted_images (Page_ImagePage (image_page last_images)) =
  Returns (Some [image_of (unmarshalled (JObj active_image))], None) /\
  images_empty (image_page last_images) = Returns (false, None) /\
  Forall2 (fun x img => extracted (mkResult x None) = Returns (Some img, None))
    [JObj active_image] [image_of (unmarshalled (JObj active_image))].
Proof.
  apply (a_page_of_good_images_is_extracted_in_order (H := go_amd64)
           (image_page last_images) [] "images" [JObj active_image] []
           [image_of (unmarshalled (JObj active_image))]).
  - reflexivity.
  - reflexivity.
  - apply List.Forall_nil.
  - evaluate.
  - apply List.Forall_nil.
  - apply List.Forall2_cons; [evaluate|apply List.Forall2_nil].
Defined.


Lemma NextPageURL_returns_the_error_of_the_decode_witness :
  exists err,
    next_images (image_page numbered_next) = Returns ("", Some err).
Proof.
  destruct (NextPageURL_returns_the_error_of_the_decode (H := go_amd64)
              join_url) as (_ & _ & Hnext).
  apply (Hnext (image_page numbered_next)
           [("images", JArr []); ("next", JNum (NInt 2))] "next"
           (JNum (NInt 2))).
  - reflexivity.
  - reflexivity.
  - right. left. reflexivity.
  - evaluate.
  - reflexivity.
Defined.

(** ** Volumes and their pages *)

Ltac volume_eq :=
  intros;
  repeat match goal with
    | s : Volume |- _ => destruct s
    end;
  reflexivity.

Ltac volume_fact :=
  unfold fits; cbn [wire store]; eval_wire; cbv iota;
  first [ apply at_field_tracks; volume_eq
        | apply at_field_preserves; volume_eq ].

Ltac volume_table :=
  repeat (apply List.Forall_cons; [volume_fact|]); apply List.Forall_nil.

Section SavedErrors.
Context `{Platform} {S : Type}.

(** An error that a field saves is reported at the end of the object. *)
Lemma decode_members_saves (fs : list (field S)) o k v f :
  In (k, v) o ->
  find_field fs k = Some f ->
  (forall s0 s1 e1, store f v s0 = Cont s1 e1 -> e1 <> None) ->
  forall s s' e, decode_members fs o s = Cont s' e -> e <> None.
Proof.
  intros Hin Hf Hbad. induction o as [|[k' v'] o IH]; [destruct Hin|].
  intros s s' e Hd. simpl in Hd.
  destruct (find_field fs k') as [f'|] eqn:E.
  - destruct (store f' v' s) as [s1 e1| |] eqn:Es; try discriminate.
    destruct (decode_members fs o s1) as [s2 e2| |] eqn:Ed; try discriminate.
    inversion Hd; subst. destruct Hin as [[= -> ->]|Hin].
    + rewrite Hf in E. inversion E; subst f'.
      specialize (Hbad _ _ _ Es). now destruct e1.
    + specialize (IH Hin _ _ _ Ed). now destruct e1, e2.
  - destruct Hin as [[= -> ->]|Hin]; [congruence|]. now apply (IH Hin s s').
Qed.

End SavedErrors.

Section VolumeResults.
Context `{Platform} `{Timestamps}.

Lemma volume_string_attributes_fit :
  Forall (fun '(w, get) => Forall (fits w get decode_string) Volume_fields)
    volume_string_attributes.
Proof.
  repeat (apply List.Forall_cons; [volume_table|]). apply List.Forall_nil.
Qed.

Lemma fits_volume_size :
  Forall (fits "size" Volume_Size (decode_int "int")) Volume_fields.
Proof. volume_table. Qed.

(** X13.  A type error does not end the decode of a Volume.  Whenever the
    decode goes through the object (no timestamp fails), every string
    attribute whose deciding member is a string has the value of it, and is
    empty when it has no member; Size is the integer of its member, and 0
    without one; and a member for a string attribute that is neither a
    string nor null, or for Size that is no integer, is reported as an error
    all the same. *)
Theorem a_volume_keeps_what_is_well_typed o vol e :
  decode_Volume (JObj o) zero_Volume = Cont vol e ->
  (forall w get,
     In (w, get) volume_string_attributes ->
     match volume_member w o with
     | None => get vol = ""
     | Some (JStr x) => get vol = x
     | Some _ => True
     end) /\
  match volume_member "size" o with
  | None => Volume_Size vol = 0
  | Some (JNum (NInt z)) => in_int64 z = true -> Volume_Size vol = z
  | Some _ => True
  end /\
  (forall w get k v,
     In (w, get) volume_string_attributes ->
     In (k, v) o -> binds Volume_fields w k = true -> not_a_string v = true ->
     e <> None) /\
  (forall k v,
     In (k, v) o -> binds Volume_fields "size" k = true ->
     not_an_integer v = true -> e <> None).
Proof.
  intros Hd. cbn [decode_Volume decode_struct] in Hd. repeat apply conj.
  - intros w get Hin.
    pose proof volume_string_attributes_fit as Hall.
    rewrite Forall_forall in Hall.
    pose proof (Hall (w, get)) as Hfits. cbv beta iota in Hfits.
    specialize (Hfits ltac:(now apply list_elem_of_In)).
    pose proof (decode_members_component get _ w decode_string Hfits o _ _ _ Hd)
      as Ha.
    unfold volume_member. destruct (wire_member Volume_fields w o) as [v|].
    + destruct v; trivial. destruct Ha as (a0 & e' & Ha). simpl in Ha.
      now inversion Ha.
    + rewrite Ha. clear -Hin.
      repeat (destruct Hin as [[= <- <-]|Hin]; [reflexivity|]). destruct Hin.
  - pose proof (decode_members_component Volume_Size _ "size" (decode_int "int")
                  fits_volume_size o _ _ _ Hd) as Ha.
    unfold volume_member.
    destruct (wire_member Volume_fields "size" o) as [v|]; [|exact Ha].
    destruct v as [| |[z|m x]| | |]; trivial. intros Hz.
    destruct Ha as (a0 & e' & Ha). simpl in Ha. rewrite Hz in Ha.
    now inversion Ha.
  - intros w get k v Hin Hmem (f & Hf & Hw)%binds_find_field Hv.
    apply (decode_members_saves Volume_fields o k v f Hmem Hf) with
      (s := zero_Volume) (s' := vol); [|exact Hd].
    intros s0 s1 e1 Hs.
    pose proof volume_string_attributes_fit as Hall.
    rewrite Forall_forall in Hall.
    pose proof (Hall (w, get)) as Hfits. cbv beta iota in Hfits.
    specialize (Hfits ltac:(now apply list_elem_of_In)).
    rewrite Forall_forall in Hfits.
    specialize (Hfits f (find_field_elem _ _ _ Hf)). unfold fits in Hfits.
    apply String.eqb_eq in Hw. rewrite Hw in Hfits. specialize (Hfits v s0).
    rewrite Hs in Hfits. destruct v; try discriminate; simpl in Hfits;
      inversion Hfits; discriminate.
  - intros k v Hmem (f & Hf & Hw)%binds_find_field Hv.
    apply (decode_members_saves Volume_fields o k v f Hmem Hf) with
      (s := zero_Volume) (s' := vol); [|exact Hd].
    intros s0 s1 e1 Hs. pose proof fits_volume_size as Hfits.
    rewrite Forall_forall in Hfits.
    specialize (Hfits f (find_field_elem _ _ _ Hf)). unfold fits in Hfits.
    apply String.eqb_eq in Hw. rewrite Hw in Hfits. specialize (Hfits v s0).
    rewrite Hs in Hfits. destruct v as [| |[z|m x]| | |]; try discriminate;
      simpl in Hfits, Hv; try (inversion Hfits; discriminate).
    apply negb_true_iff in Hv. rewrite Hv in Hfits. inversion Hfits.
    discriminate.
Qed.



Lemma links_body_fields_steady :
  Forall (fun f => steady (store f)) links_body_fields.
Proof.
  assert (Hlink : steady (decode_struct Link_fields "gophercloud.Link")).
  { intros j s. destruct j; simpl; eauto.
    apply decode_members_steady.
    repeat (apply List.Forall_cons; [cbn [store]; auto with steady|]).
    apply List.Forall_nil. }
  apply List.Forall_cons; [cbn [store]; auto with steady|apply List.Forall_nil].
Qed.

(** X16.  NextPageURL of a page of volumes returns the empty string and the
    error, and looks for no link, when the page carries a transport error,
    when the body is neither an object nor null, and when a member of the
    body decoded into volumes_links is neither an array nor null. *)
Theorem VolumePage_NextPageURL_returns_the_error_of_the_decode :
  (forall page e,
     Err (PageResult (VolumePage_base page)) = Some e ->
     VolumePage_NextPageURL page = Returns ("", Some e)) /\
  (forall page,
     Err (PageResult (VolumePage_base page)) = None ->
     is_object (Body (PageResult (VolumePage_base page))) = false ->
     Body (PageResult (VolumePage_base page)) <> JNull ->
     exists err, VolumePage_NextPageURL page = Returns ("", Some err)) /\
  (forall page o k v,
     Err (PageResult (VolumePage_base page)) = None ->
     Body (PageResult (VolumePage_base page)) = JObj o ->
     In (k, v) o ->
     binds links_body_fields "volumes_links" k = true ->
     not_a_list v = true ->
     exists err, VolumePage_NextPageURL page = Returns ("", Some err)).
Proof.
  unfold VolumePage_NextPageURL, ExtractInto. repeat apply conj.
  - now intros page e ->.
  - intros page -> Hobj Hnn.
    destruct (Body (PageResult (VolumePage_base page))); try discriminate;
      try congruence; simpl; eauto.
  - intros page o k v -> -> Hin (f & Hf & Hw)%binds_find_field Hv.
    unfold json_Unmarshal, decode_links_body. cbn [decode_struct].
    destruct (decode_members_reports links_body_fields o k v f
                links_body_fields_steady Hin Hf) with (s := mkLinksBody None)
      as (s' & e & ->); [|eauto].
    intros s. pose proof (find_field_elem _ _ _ Hf) as Hel.
    apply list_elem_of_singleton in Hel. subst f. cbn [store]. unfold at_field.
    destruct v; try discriminate; simpl; eauto.
Qed.

End VolumeResults.

Lemma a_volume_keeps_what_is_well_typed_witness :
  decoded_volume mistyped_volume =
  Cont (volume_of (decoded_volume mistyped_volume))
    (saved_error (decoded_volume mistyped_volume)) /\
  Volume_ID (volume_of (decoded_volume mistyped_volume)) = "v1" /\
  Volume_Name (volume_of (decoded_volume mistyped_volume)) = "data" /\
  Volume_Status (volume_of (decoded_volume mistyped_volume)) = "" /\
  saved_error (decoded_volume mistyped_volume) <> None.
Proof.
  assert (Hd : decoded_volume mistyped_volume =
               Cont (volume_of (decoded_volume mistyped_volume))
                 (saved_error (decoded_volume mistyped_volume))) by evaluate.
  destruct (@a_volume_keeps_what_is_well_typed go_amd64 text_timestamps
              mistyped_volume _ _ Hd) as (Hstr & _ & _ & Hsize).
  split; [exact Hd|]. split; [|split; [|split]].
  - apply (Hstr "id" (@Volume_ID text_timestamps)). left. reflexivity.
  - apply (Hstr "name" (@Volume_Name text_timestamps)).
    right. right. right. left. reflexivity.
  - apply (Hstr "status" (@Volume_Status text_timestamps)).
    right. left. reflexivity.
  - apply (Hsize "size" (JStr "ten")).
    + right. left. reflexivity.
    + evaluate.
    + reflexivity.
Defined.



Lemma VolumePage_NextPageURL_returns_the_error_of_the_decode_witness :
  exists err,
    next_volumes (volume_page linked_volumes) = Returns ("", Some err).
Proof.
  destruct (VolumePage_NextPageURL_returns_the_error_of_the_decode
              (H := go_amd64)) as (_ & _ & Hlinks).
  apply (Hlinks (volume_page linked_volumes)
           [("volumes", JArr []);
            ("volumes_links", JObj [("rel", JStr "next")])]
           "volumes_links" (JObj [("rel", JStr "next")])).
  - reflexivity.
  - reflexivity.
  - right. left. reflexivity.
  - evaluate.
  - reflexivity.
Defined.

(** ** jsonTagKeys *)

Lemma lower_ascii_dash c : lower_ascii c = "-"%char -> c = "-"%char.
Proof.
  destruct c as [[] [] [] [] [] [] [] []]; vm_compute; intros E;
    solve [reflexivity | discriminate E].
Qed.

Lemma strings_ToLower_empty s : strings_ToLower s = "" -> s = "".
Proof. destruct s; [reflexivity|discriminate]. Qed.

Lemma strings_ToLower_dash s : strings_ToLower s = "-" -> s = "-".
Proof.
  destruct s as [|c rest]; simpl; [discriminate|].
  intros E. inversion E as [[Hc Hrest]].
  apply lower_ascii_dash in Hc. apply strings_ToLower_empty in Hrest.
  now subst.
Qed.

(** X17.  jsonTagKeys gives at most one key for a field and works field by
    field, so that the keys of two struct types appended are the keys of the
    one followed by the keys of the other.  For a struct whose field names
    are neither empty nor "-" (those of Go are identifiers), no key is
    empty and no key is "-": an empty tag name falls back on the lower-cased
    field name, and a tag name "-" drops the field. *)
Theorem jsonTagKeys_field_by_field t :
  (length (jsonTagKeys t) <= length t)%nat /\
  (forall t', jsonTagKeys (t ++ t') = (jsonTagKeys t ++ jsonTagKeys t')%list) /\
  (Forall (fun f => FieldName f <> "" /\ FieldName f <> "-") t ->
   ("" ∉ jsonTagKeys t) /\ ("-" ∉ jsonTagKeys t)).
Proof.
  repeat apply conj.
  - induction t as [|f t IH]; simpl; [lia|].
    destruct (String.eqb _ "-"); simpl; lia.
  - intros t'. induction t as [|f t IH]; simpl; [reflexivity|].
    destruct (String.eqb _ "-"); [exact IH|]. simpl. now rewrite IH.
  - intros Hnames.
    enough (Hboth : forall k, k = "" \/ k = "-" -> k ∉ jsonTagKeys t)
      by (split; apply Hboth; auto).
    intros k Hk. induction Hnames as [|f t [Hne Hnd] _ IH]; simpl.
    + apply not_elem_of_nil.
    + destruct (String.eqb _ "-") eqn:Edash; [exact IH|].
      intros [Hhd|Htl]%elem_of_cons; [|now apply IH].
      destruct (String.eqb _ "") eqn:Eempty.
      * destruct Hk as [-> | ->]; symmetry in Hhd.
        -- now apply strings_ToLower_empty in Hhd.
        -- now apply strings_ToLower_dash in Hhd.
      * apply String.eqb_neq in Edash, Eempty.
        destruct Hk as [-> | ->]; congruence.
Qed.

Lemma jsonTagKeys_field_by_field_witness :
  ("" ∉ jsonTagKeys transient_type) /\ ("-" ∉ jsonTagKeys transient_type).
Proof.
  apply (jsonTagKeys_field_by_field transient_type).
  repeat (apply List.Forall_cons; [split; discriminate|]).
  apply List.Forall_nil.
Defined.

(** ** The library on examples

    What [time.Parse] accepts beyond RFC 3339, and what it rejects; and the
    two ways of a decoder with the elements that follow one whose
    [UnmarshalJSON] returns an error. *)

Lemma time_Parse_examples :
  parse_RFC3339 "2016-08-17T07:21:33Z" = Some (mkTime 2016 8 17 7 21 33 0 0) /\
  parse_RFC3339 "2016-08-17T7:21:33Z" = Some (mkTime 2016 8 17 7 21 33 0 0) /\
  parse_RFC3339 "2016-08-17T07:21:33.25-05:30" =
    Some (mkTime 2016 8 17 7 21 33 250000000 (-19800)) /\
  parse_RFC3339 "2016-08-17T07:21:33,5Z" =
    Some (mkTime 2016 8 17 7 21 33 500000000 0) /\
  parse_RFC3339 "2016-08-17T07:21:33+24:60" =
    Some (mkTime 2016 8 17 7 21 33 0 90000) /\
  parse_RFC3339 "2016-08-17T07:21:33+25:00" = None /\
  parse_RFC3339 "2016-08-17T24:21:33Z" = None /\
  parse_RFC3339 "2016-08-17T07:21:60Z" = None /\
  parse_RFC3339 "2016-8-17T07:21:33Z" = None /\
  parse_RFC3339 "2016-02-30T07:21:33Z" = None /\
  parse_RFC3339 "2016-08-17 07:21:33Z" = None /\
  parse_RFC3339 "2016-08-17T07:21:33" = None /\
  parse_RFC3339 "2016-08-17T07:21:33Z " = None /\
  parse_RFC3339 "17 Aug 2016" = None /\
  parse_RFC3339 "" = None.
Proof. repeat split; evaluate. Qed.

Lemma loose_dates_are_accepted :
  exists img,
    unmarshalled (JObj loosely_dated_image) = Returns (img, None) /\
    CreatedAt img = mkTime 2016 8 17 7 21 33 0 0 /\
    UpdatedAt img = mkTime 2016 8 17 7 21 33 500000000 86400.
Proof. eexists. repeat split; evaluate. Qed.

Lemma the_images_after_a_failing_one :
  ExtractImages (H := go_amd64)
    (Page_ImagePage (image_page bad_first_images)) =
  Returns (Some [image_of (unmarshalled (JObj misdated_image));
                 image_of (unmarshalled (JObj active_image))],
           Some (ParseError RFC3339 "17 Aug 2016")) /\
  ExtractImages (H := go_amd64_stopping)
    (Page_ImagePage (image_page bad_first_images)) =
  Returns (Some [image_of (unmarshalled (JObj misdated_image))],
           Some (ParseError RFC3339 "17 Aug 2016")).
Proof. split; evaluate. Qed.
